(** * MCBE news plugin: new-article detection, first-run reconciliation,
      destination registry and image extraction

    A shallow embedding of [main.py] and [models.py].  The plugin object
    [self] together with its two JSON files is an explicit state record;
    every method that reads or writes [self] is a computation in a small
    state monad over that record.  Answers of the outside world (the HTTP
    reply of a feed, whether a file can be written, whether the host's image
    constructor accepts a URL) are inputs of the model.  Calls of [logger]
    are not modelled. *)

From stdpp Require Import gmap strings list.
From Stdlib Require Import ZArith String Ascii.

#[local] Set Warnings "-clear-no-such-hyp".

Local Open Scope string_scope.
Local Open Scope list_scope.
Local Open Scope Z_scope.

(** ** models.py *)

Module Article.
(** [datetime] fields are seconds since the epoch, [HttpUrl] fields are
    the URL text. *)
Record t := mk {
    id : Z;
    url : string;
    html_url : string;
    author_id : Z;
    comments_disabled : bool;
    draft : bool;
    promoted : bool;
    position : Z;
    vote_sum : Z;
    vote_count : Z;
    section_id : Z;
    created_at : Z;
    updated_at : Z;
    edited_at : Z;
    name : string;
    title : string;
    source_locale : string;
    locale : string;
    outdated : bool;
    outdated_locales : list string;
    user_segment_id : option Z;
    user_segment_ids : list Z;
    permission_group_id : Z;
    content_tag_ids : list Z;
    label_names : list string;
    body : string
}.
End Article.

Module ArticleListResponse.
Record t := mk {
    count : Z;
    next_page : option string;
    previous_page : option string;
    page : Z;
    page_count : Z;
    per_page : Z;
    sort_by : string;
    sort_order : string;
    articles : list Article.t
}.
End ArticleListResponse.

(** ** The outside world *)

(** What [client.get(api_url)] followed by [resp.json()] and
    [ArticleListResponse.model_validate] can give: the request raises, or
    a response arrives with a status code and a body that validates
    ([Some]) or does not ([None]). *)
Inductive http_outcome :=
  | RequestError
  | Response (status_code : Z) (validated : option ArticleListResponse.t).

(** [resp.raise_for_status()] passes for the 2xx codes only. *)
Definition is_success (status_code : Z) : bool :=
  (200 <=? status_code) && (status_code <=? 299).

(** The value bound to [data] at line 150, or [None] when one of lines
    148-150 raises. *)
Definition fetched (o : http_outcome) : option ArticleListResponse.t :=
  match o with
  | RequestError => None
  | Response status_code validated =>
      if is_success status_code then validated else None
  end.

(** A JSON file on disk: absent, present but such that loading it raises
    (it cannot be read or is not JSON; for the seen-ids file also JSON
    that is not an object or whose [seen_ids] cannot be iterated), or
    present with a value of the shape the plugin writes: a list of
    integers under [seen_ids], an object of strings for the registry.
    Files with JSON of another shape, which the plugin never writes, are
    outside the model. *)
Inductive file (A : Type) :=
  | Missing
  | Unloadable
  | Stored (content : A).
Arguments Missing {A}.
Arguments Unloadable {A}.
Arguments Stored {A} content.

(** What writing a file does, lines 55-57 and 73-75.  The write succeeds;
    or [open(..., 'w')] raises and the file stays as it was; or [open] has
    already emptied the file when [json.dump] raises, and what is left on
    disk does not load.  In the last two cases the exception is logged and
    swallowed. *)
Inductive write_outcome :=
  | WriteOk
  | OpenRaises
  | DumpRaises.

Definition written {A} (outcome : write_outcome) (content : A) (old : file A)
    : file A :=
  match outcome with
  | WriteOk => Stored content
  | OpenRaises => old
  | DumpRaises => Unloadable
  end.

Definition exists_ {A} (f : file A) : bool :=
  match f with Missing => false | _ => true end.

(** A Python [dict] with string keys, in insertion order. *)
Definition dict := list (string * string).

Fixpoint dict_set (k v : string) (d : dict) : dict :=
  match d with
  | [] => [(k, v)]
  | (k', v') :: rest =>
      if decide (k' = k) then (k, v) :: rest else (k', v') :: dict_set k v rest
  end.

Fixpoint dict_del (k : string) (d : dict) : dict :=
  match d with
  | [] => []
  | (k', v') :: rest =>
      if decide (k' = k) then rest else (k', v') :: dict_del k rest
  end.

Definition dict_keys (d : dict) : list string := d.*1.

(** ** The plugin object *)

Record AstrBotConfig := {
  enable_beta_monitor : option bool;
  enable_release_monitor : option bool
}.

(** [self.config.get(key, True)] used as a condition. *)
Definition config_get (o : option bool) : bool := default true o.

(** The reply of a command handler. *)
Inductive reply :=
  | RegisterOk (group_id : string)
  | UnregisterOk
  | NotRegistered
  | CheckStarted
  | CheckDone
  | OtherReply.

(** The effects a method performs, in the order it performs them. *)
Inductive effect :=
  | HttpGet (api_url : string)
  | SaveSeenArticles (seen_ids : gset Z)
  | SaveRegisteredGroups (groups : dict)
  | AssignFirstRun (value : bool)
  | ProcessNewArticles (articles : list (Article.t * string))
  | Yield (r : reply).

Record MyPlugin := {
  config : AstrBotConfig;
  is_first_run : bool;
  seen_article_ids : gset Z;
  registered_groups : dict;
  (* the two files under data/mcbe_news and what writing them does *)
  seen_articles_file : file (list Z);
  registered_groups_file : file dict;
  disk : write_outcome;
  (* effects performed so far, oldest first *)
  trace : list effect
}.

(** Writes succeed. *)
Definition disk_writable (self : MyPlugin) : bool :=
  match disk self with WriteOk => true | _ => false end.

Definition bedrock_beta_news_api : string :=
  "https://feedback.minecraft.net/api/v2/help_center/en-us/sections/360001185332/articles.json?sort_by=created_at&sort_order=desc".
Definition bedrock_news_api : string :=
  "https://feedback.minecraft.net/api/v2/help_center/en-us/sections/360001186971/articles.json?sort_by=created_at&sort_order=desc".
Definition feedback_base_url : string := "https://feedback.minecraft.net".

(** ** A state monad over the plugin object *)

Definition M (A : Type) : Type := MyPlugin → A * MyPlugin.

Definition ret {A} (a : A) : M A := λ self, (a, self).
Definition bind {A B} (m : M A) (k : A → M B) : M B :=
  λ self, let '(a, self') := m self in k a self'.

Notation "'let!' x ':=' m 'in' k" := (bind m (λ x, k))
  (at level 10, x name, m at level 100, k at level 200).
Notation "'run!' m 'in' k" := (bind m (λ _, k))
  (at level 10, m at level 100, k at level 200).

Definition get : M MyPlugin := λ self, (self, self).

Definition emit (e : effect) : M unit := λ self,
  (tt, {| config := config self; is_first_run := is_first_run self;
          seen_article_ids := seen_article_ids self;
          registered_groups := registered_groups self;
          seen_articles_file := seen_articles_file self;
          registered_groups_file := registered_groups_file self;
          disk := disk self;
          trace := trace self ++ [e] |}).

Definition set_is_first_run (b : bool) : M unit := λ self,
  (tt, {| config := config self; is_first_run := b;
          seen_article_ids := seen_article_ids self;
          registered_groups := registered_groups self;
          seen_articles_file := seen_articles_file self;
          registered_groups_file := registered_groups_file self;
          disk := disk self;
          trace := trace self ++ [AssignFirstRun b] |}).

Definition set_seen_article_ids (s : gset Z) : M unit := λ self,
  (tt, {| config := config self; is_first_run := is_first_run self;
          seen_article_ids := s;
          registered_groups := registered_groups self;
          seen_articles_file := seen_articles_file self;
          registered_groups_file := registered_groups_file self;
          disk := disk self;
          trace := trace self |}).

Definition set_registered_groups (d : dict) : M unit := λ self,
  (tt, {| config := config self; is_first_run := is_first_run self;
          seen_article_ids := seen_article_ids self;
          registered_groups := d;
          seen_articles_file := seen_articles_file self;
          registered_groups_file := registered_groups_file self;
          disk := disk self;
          trace := trace self |}).

Definition write_seen_articles_file (ids : list Z) : M unit := λ self,
  (tt, {| config := config self; is_first_run := is_first_run self;
          seen_article_ids := seen_article_ids self;
          registered_groups := registered_groups self;
          seen_articles_file :=
            written (disk self) ids (seen_articles_file self);
          registered_groups_file := registered_groups_file self;
          disk := disk self;
          trace := trace self |}).

Definition write_registered_groups_file (d : dict) : M unit := λ self,
  (tt, {| config := config self; is_first_run := is_first_run self;
          seen_article_ids := seen_article_ids self;
          registered_groups := registered_groups self;
          seen_articles_file := seen_articles_file self;
          registered_groups_file :=
            written (disk self) d (registered_groups_file self);
          disk := disk self;
          trace := trace self |}).

(** ** main.py: loading and saving *)

(** [_load_seen_articles]: the set of the stored ids, or the empty set when
    the file is absent or loading raises. *)
Definition _load_seen_articles (f : file (list Z)) : gset Z :=
  match f with
  | Stored seen_ids => list_to_set seen_ids
  | Unloadable => ∅
  | Missing => ∅
  end.

(** [_load_registered_groups]: the stored object, or the empty dict when
    the file is absent or loading raises. *)
Definition _load_registered_groups (f : file dict) : dict :=
  match f with
  | Stored d => d
  | Unloadable => []
  | Missing => []
  end.

(** [__init__]: the state of a process started over the given files, on a
    disk that treats writes as given. *)
Definition __init__ (cfg : AstrBotConfig) (seen_file : file (list Z))
    (groups_file : file dict) (writes : write_outcome) : MyPlugin :=
  {| config := cfg;
     is_first_run := negb (exists_ seen_file);
     seen_article_ids := _load_seen_articles seen_file;
     registered_groups := _load_registered_groups groups_file;
     seen_articles_file := seen_file;
     registered_groups_file := groups_file;
     disk := writes;
     trace := [] |}.

(** [_save_seen_articles]: one write of the whole set; a failed write is
    logged and swallowed. *)
Definition _save_seen_articles : M unit :=
  let! self := get in
  run! emit (SaveSeenArticles (seen_article_ids self)) in
  write_seen_articles_file (elements (seen_article_ids self)).

Definition _save_registered_groups : M unit :=
  let! self := get in
  run! emit (SaveRegisteredGroups (registered_groups self)) in
  write_registered_groups_file (registered_groups self).

(** ** main.py: the update checker *)

(** Lines 157-158: every article of the page is added to the seen-set. *)
Fixpoint mark_all_seen (articles : list Article.t) : M unit :=
  match articles with
  | [] => ret tt
  | article :: rest =>
      let! self := get in
      run! set_seen_article_ids ({[Article.id article]} ∪ seen_article_ids self) in
      mark_all_seen rest
  end.

(** Lines 170-173: the loop that appends each unseen article to
    [new_articles] and adds its id to the seen-set. *)
Fixpoint select_new (articles : list Article.t) (version_type : string)
    (new_articles : list (Article.t * string)) : M (list (Article.t * string)) :=
  match articles with
  | [] => ret new_articles
  | article :: rest =>
      let! self := get in
      if decide (Article.id article ∈ seen_article_ids self) then
        select_new rest version_type new_articles
      else
        run! set_seen_article_ids ({[Article.id article]} ∪ seen_article_ids self) in
        select_new rest version_type (new_articles ++ [(article, version_type)])
  end.

Definition _fetch_articles (outcome : http_outcome) (api_url version_type : string)
    : M (list (Article.t * string)) :=
  run! emit (HttpGet api_url) in
  match fetched outcome with
  | None => ret []
  | Some data =>
      let! self := get in
      if is_first_run self then
        run! mark_all_seen (ArticleListResponse.articles data) in
        let new_articles :=
          match ArticleListResponse.articles data with
          | [] => []
          | newest :: _ => [(newest, version_type)]
          end in
        run! _save_seen_articles in
        ret new_articles
      else
        let! new_articles :=
          select_new (ArticleListResponse.articles data) version_type [] in
        run! (match new_articles with
              | [] => ret tt
              | _ :: _ => _save_seen_articles
              end) in
        ret new_articles
  end.

(** [_process_new_articles] renders and delivers; here it is the single
    effect of handing the list over. *)
Definition _process_new_articles (articles : list (Article.t * string)) : M unit :=
  emit (ProcessNewArticles articles).

(** [_check_updates], with the answers the two feeds give in this cycle.
    The value returned is the cycle's [new_articles] list. *)
Definition _check_updates (beta_outcome release_outcome : http_outcome)
    : M (list (Article.t * string)) :=
  let! self := get in
  let! beta_articles :=
    (if config_get (enable_beta_monitor (config self))
     then _fetch_articles beta_outcome bedrock_beta_news_api "Beta"
     else ret []) in
  let! release_articles :=
    (if config_get (enable_release_monitor (config self))
     then _fetch_articles release_outcome bedrock_news_api "Release"
     else ret []) in
  let new_articles := beta_articles ++ release_articles in
  let! self := get in
  run! (if is_first_run self then set_is_first_run false else ret tt) in
  run! (match new_articles with
        | [] => ret tt
        | _ :: _ => _process_new_articles new_articles
        end) in
  ret new_articles.

(** ** main.py: the destination registry commands *)

(** The part of [AstrMessageEvent] the handlers read.  [group_id] is
    [Some s] when the event object has an attribute [group_id] whose [str]
    is [s], and [None] when it has no such attribute. *)
Record AstrMessageEvent := {
  unified_msg_origin : string;
  group_id : option string
}.

(** [needle in hay] on Python strings. *)
Definition contains (needle hay : string) : bool :=
  bool_decide (is_Some (String.index 0 needle hay)).

(** [s.split(sep)] for a one-character separator. *)
Fixpoint split (sep : ascii) (s : string) : list string :=
  match s with
  | EmptyString => [EmptyString]
  | String c rest =>
      if decide (c = sep) then EmptyString :: split sep rest
      else match split sep rest with
           | [] => [String c EmptyString]
           | part :: parts => String c part :: parts
           end
  end.

(** Lines 445-458: the key under which the calling chat is registered. *)
Definition registration_key (event : AstrMessageEvent) : string :=
  match group_id event with
  | Some g => g
  | None =>
      if contains "group" (unified_msg_origin event) then
        let parts := split ":" (unified_msg_origin event) in
        if (3 <=? List.length parts)%nat
        then nth 2 parts (unified_msg_origin event)
        else unified_msg_origin event
      else unified_msg_origin event
  end.

Definition mcbe_register (event : AstrMessageEvent) : M unit :=
  let group_id := registration_key event in
  let! self := get in
  run! set_registered_groups
         (dict_set group_id (unified_msg_origin event) (registered_groups self)) in
  run! _save_registered_groups in
  emit (Yield (RegisterOk group_id)).

(** Lines 480-487: the scan over a snapshot of the items; the value
    returned is [removed]. *)
Fixpoint unregister_scan (items : dict) (origin : string) : M bool :=
  match items with
  | [] => ret false
  | (group_id, saved_origin) :: rest =>
      if decide (saved_origin = origin) then
        let! self := get in
        run! set_registered_groups (dict_del group_id (registered_groups self)) in
        run! _save_registered_groups in
        run! emit (Yield UnregisterOk) in
        ret true
      else unregister_scan rest origin
  end.

Definition mcbe_unregister (event : AstrMessageEvent) : M unit :=
  let! self := get in
  let! removed := unregister_scan (registered_groups self) (unified_msg_origin event) in
  if removed then ret tt else emit (Yield NotRegistered).

Definition mcbe_check (beta_outcome release_outcome : http_outcome) : M unit :=
  run! emit (Yield CheckStarted) in
  run! _check_updates beta_outcome release_outcome in
  emit (Yield CheckDone).

(** [mcbe_news], [mcbe_status] and [mcbe_help] assign no attribute of
    [self] and write no file; each yields its reply. *)
Definition read_only_command : M unit := emit (Yield OtherReply).

(** What can happen to a running plugin: the scheduler fires, or a
    command arrives. *)
Inductive operation :=
  | ScheduledCheck (beta_outcome release_outcome : http_outcome)
  | CmdCheck (beta_outcome release_outcome : http_outcome)
  | CmdRegister (event : AstrMessageEvent)
  | CmdUnregister (event : AstrMessageEvent)
  | CmdReadOnly.

Definition perform (op : operation) : M unit :=
  match op with
  | ScheduledCheck b r => run! _check_updates b r in ret tt
  | CmdCheck b r => mcbe_check b r
  | CmdRegister event => mcbe_register event
  | CmdUnregister event => mcbe_unregister event
  | CmdReadOnly => read_only_command
  end.

Fixpoint perform_all (ops : list operation) : M unit :=
  match ops with
  | [] => ret tt
  | op :: rest => run! perform op in perform_all rest
  end.

(** The state a computation leaves, and the value it returns. *)
Definition exec {A} (m : M A) (self : MyPlugin) : MyPlugin := (m self).2.
Definition eval {A} (m : M A) (self : MyPlugin) : A := (m self).1.

(** The effects a computation adds to the trace. *)
Definition effects_of {A} (m : M A) (self : MyPlugin) : list effect :=
  drop (List.length (trace self)) (trace (exec m self)).

(** ** main.py: image extraction *)

(** The parse tree [BeautifulSoup(article.body, "html.parser")] gives. *)
#[local] Set Warnings "-register-all".
Inductive Tag :=
  | Element (name : string) (attrs : gmap string string) (contents : list Tag)
  | NavigableString (text : string).

(** All nodes below a node, in document order. *)
Fixpoint descendants (t : Tag) : list Tag :=
  match t with
  | Element _ _ contents => flat_map (λ child, child :: descendants child) contents
  | NavigableString _ => []
  end.

Definition is_named (names : list string) (t : Tag) : bool :=
  match t with
  | Element name _ _ => bool_decide (name ∈ names)
  | NavigableString _ => false
  end.

(** [t.find_all(names)] and [t.find(name)]. *)
Definition find_all (names : list string) (t : Tag) : list Tag :=
  List.filter (is_named names) (descendants t).

Definition find (name : string) (t : Tag) : option Tag :=
  head (find_all [name] t).

(** [t.get(key, default)]. *)
Definition get_attr (t : Tag) (key fallback : string) : string :=
  match t with
  | Element _ attrs _ => default fallback (attrs !! key)
  | NavigableString _ => fallback
  end.

(** The message components the extraction builds. *)
Inductive Component :=
  | Plain (text : string)
  | Image (url : string).

Definition newline : string := String (ascii_of_nat 10) EmptyString.

Definition max_images : nat := 10.

(** The local variables of [_extract_content_with_images]. *)
Record extraction := {
  components : list Component;
  image_count : nat;
  processed_imgs : gset string
}.

(** [src.startswith('/')]. *)
Definition startswith_slash (src : string) : bool :=
  match src with
  | String c _ => bool_decide (c = "/"%char)
  | EmptyString => false
  end.

(** Lines 272-273 and 285-286. *)
Definition resolve (src : string) : string :=
  if startswith_slash src then feedback_base_url +:+ src else src.

(** Truth value of a Python string. *)
Definition truthy (s : string) : bool :=
  match s with EmptyString => false | String _ _ => true end.

(** [Comp.Image.fromURL] belongs to the host.  [url_accepted] tells for
    which URLs it returns the image component; for the others it raises,
    and the loop's [except] clause goes on to the next element. *)
Definition fromURL (url_accepted : string → bool) (url : string) : option Component :=
  if url_accepted url then Some (Image url) else None.

(** Lines 272-279 and 285-292: resolve, append, count, record. *)
Definition add_image (url_accepted : string → bool) (src : string) (st : extraction)
    : extraction :=
  let src := resolve src in
  match fromURL url_accepted src with
  | Some image =>
      {| components := components st ++ [image; Plain newline];
         image_count := S (image_count st);
         processed_imgs := {[src]} ∪ processed_imgs st |}
  | None => st
  end.

(** The body of the loop, lines 265-296. *)
Definition visit (url_accepted : string → bool) (st : extraction) (element : Tag)
    : extraction :=
  match element with
  | Element name _ _ =>
      if decide (name = "figure") then
        match find "img" element with
        | Some img =>
            if (image_count st <? max_images)%nat then
              let src := get_attr img "src" EmptyString in
              if truthy src && bool_decide (src ∉ processed_imgs st)
              then add_image url_accepted src st
              else st
            else st
        | None => st
        end
      else if decide (name = "img") then
        let src := get_attr element "src" EmptyString in
        if truthy src && bool_decide (src ∉ processed_imgs st)
           && (image_count st <? max_images)%nat
        then add_image url_accepted src st
        else st
      else st
  | NavigableString _ => st
  end.

Definition extraction_start : extraction :=
  {| components := []; image_count := 0; processed_imgs := ∅ |}.

Definition extract_loop (url_accepted : string → bool) (elements : list Tag)
    (st : extraction) : extraction :=
  foldl (visit url_accepted) st elements.

Definition _extract_content_with_images (url_accepted : string → bool)
    (soup : Tag) : list Component :=
  components
    (extract_loop url_accepted (find_all ["figure"; "img"] soup) extraction_start).

(** The URLs of the images in a component list, in order. *)
Definition image_urls (cs : list Component) : list string :=
  omap (λ c, match c with Image url => Some url | Plain _ => None end) cs.

(** The [src] of every [<img>] of a document, in document order. *)
Definition img_sources (soup : Tag) : list string :=
  (λ img, get_attr img "src" EmptyString) <$> find_all ["img"] soup.

(** ** Vocabulary of the statements *)

(** A page's articles paired with the feed's name, as [new_articles]
    holds them. *)
Definition tagged (version_type : string) (articles : list Article.t)
    : list (Article.t * string) :=
  (λ article, (article, version_type)) <$> articles.

(** The articles of a page whose id is not in [seen], an id met earlier
    on the same page counting as seen. *)
Fixpoint unseen (articles : list Article.t) (seen : gset Z) : list Article.t :=
  match articles with
  | [] => []
  | article :: rest =>
      if decide (Article.id article ∈ seen) then unseen rest seen
      else article :: unseen rest ({[Article.id article]} ∪ seen)
  end.

Definition page_ids (articles : list Article.t) : gset Z :=
  list_to_set (Article.id <$> articles).

(** What a feed check over a validated page reports, by mode. *)
Definition reported (first_run : bool) (seen : gset Z) (articles : list Article.t)
    (version_type : string) : list (Article.t * string) :=
  if first_run then tagged version_type (take 1 articles)
  else tagged version_type (unseen articles seen).

(** Whether a feed check over a validated page calls
    [_save_seen_articles]. *)
Definition saves (first_run : bool) (seen : gset Z) (articles : list Article.t) : bool :=
  if first_run then true
  else match unseen articles seen with [] => false | _ :: _ => true end.

(** The effects of one feed check. *)
Definition fetch_effects (self : MyPlugin) (outcome : http_outcome) (api_url : string)
    : list effect :=
  HttpGet api_url ::
  match fetched outcome with
  | None => []
  | Some data =>
      let articles := ArticleListResponse.articles data in
      if saves (is_first_run self) (seen_article_ids self) articles
      then [SaveSeenArticles (seen_article_ids self ∪ page_ids articles)]
      else []
  end.

(** The value one feed check returns. *)
Definition fetch_result (self : MyPlugin) (outcome : http_outcome)
    (version_type : string) : list (Article.t * string) :=
  match fetched outcome with
  | None => []
  | Some data =>
      reported (is_first_run self) (seen_article_ids self)
        (ArticleListResponse.articles data) version_type
  end.

(** The state one feed check leaves. *)
Definition after_fetch (self : MyPlugin) (outcome : http_outcome) (api_url : string)
    : MyPlugin :=
  let seen :=
    match fetched outcome with
    | None => seen_article_ids self
    | Some data => seen_article_ids self ∪ page_ids (ArticleListResponse.articles data)
    end in
  let saved :=
    match fetched outcome with
    | None => false
    | Some data =>
        saves (is_first_run self) (seen_article_ids self)
          (ArticleListResponse.articles data)
    end in
  {| config := config self;
     is_first_run := is_first_run self;
     seen_article_ids := seen;
     registered_groups := registered_groups self;
     seen_articles_file :=
       if saved then written (disk self) (elements seen) (seen_articles_file self)
       else seen_articles_file self;
     registered_groups_file := registered_groups_file self;
     disk := disk self;
     trace := trace self ++ fetch_effects self outcome api_url |}.

(** The state and the value after the beta step and after the release
    step of a cycle (lines 121-128). *)
Definition beta_checked (self : MyPlugin) (beta_outcome : http_outcome) : MyPlugin :=
  if config_get (enable_beta_monitor (config self))
  then after_fetch self beta_outcome bedrock_beta_news_api
  else self.

Definition beta_result (self : MyPlugin) (beta_outcome : http_outcome)
    : list (Article.t * string) :=
  if config_get (enable_beta_monitor (config self))
  then fetch_result self beta_outcome "Beta"
  else [].

Definition release_checked (self : MyPlugin) (release_outcome : http_outcome)
    : MyPlugin :=
  if config_get (enable_release_monitor (config self))
  then after_fetch self release_outcome bedrock_news_api
  else self.

Definition release_result (self : MyPlugin) (release_outcome : http_outcome)
    : list (Article.t * string) :=
  if config_get (enable_release_monitor (config self))
  then fetch_result self release_outcome "Release"
  else [].

Definition cycle_result (self : MyPlugin) (beta_outcome release_outcome : http_outcome)
    : list (Article.t * string) :=
  beta_result self beta_outcome
  ++ release_result (beta_checked self beta_outcome) release_outcome.

(** The effects of a cycle after its feed checks. *)
Definition cycle_tail (first_run : bool) (new_articles : list (Article.t * string))
    : list effect :=
  (if first_run then [AssignFirstRun false] else [])
  ++ match new_articles with
     | [] => []
     | _ :: _ => [ProcessNewArticles new_articles]
     end.

(** The state a cycle leaves. *)
Definition after_cycle (self : MyPlugin) (beta_outcome release_outcome : http_outcome)
    : MyPlugin :=
  let checked := release_checked (beta_checked self beta_outcome) release_outcome in
  {| config := config checked;
     is_first_run := false;
     seen_article_ids := seen_article_ids checked;
     registered_groups := registered_groups checked;
     seen_articles_file := seen_articles_file checked;
     registered_groups_file := registered_groups_file checked;
     disk := disk checked;
     trace := trace checked
              ++ cycle_tail (is_first_run self)
                   (cycle_result self beta_outcome release_outcome) |}.

(** The three ways lines 148-150 fail. *)
Inductive fetch_failure : http_outcome → Prop :=
  | network_error : fetch_failure RequestError
  | bad_status status_code validated :
      is_success status_code = false →
      fetch_failure (Response status_code validated)
  | validation_failure status_code : fetch_failure (Response status_code None).

Definition is_save_seen (e : effect) : bool :=
  match e with SaveSeenArticles _ => true | _ => false end.

(** The reading of "persist only after a mutation": a feed check that
    leaves the in-memory seen-set as it was neither calls
    [_save_seen_articles] nor changes the seen-ids file. *)
Definition persist_only_after_mutation : Prop :=
  ∀ (self : MyPlugin) (outcome : http_outcome) (api_url version_type : string),
    let check := _fetch_articles outcome api_url version_type in
    seen_article_ids (exec check self) = seen_article_ids self →
    List.filter is_save_seen (effects_of check self) = []
    ∧ seen_articles_file (exec check self) = seen_articles_file self.

Definition is_assignment (e : effect) : bool :=
  match e with AssignFirstRun _ => true | _ => false end.

Definition is_http_get (e : effect) : bool :=
  match e with HttpGet _ => true | _ => false end.

(** How often an article id occurs in a list of reported articles. *)
Definition occurrences (article_id : Z) (new_articles : list (Article.t * string)) : nat :=
  List.length (List.filter (λ p, bool_decide (Article.id p.1 = article_id)) new_articles).

(** The key of the first entry of a registry whose address is [origin]. *)
Fixpoint find_origin (items : dict) (origin : string) : option string :=
  match items with
  | [] => None
  | (group_id, saved_origin) :: rest =>
      if decide (saved_origin = origin) then Some group_id
      else find_origin rest origin
  end.

(** The state [mcbe_unregister] leaves when it removes the entry under
    [group_id]. *)
Definition after_unregister (self : MyPlugin) (group_id : string) : MyPlugin :=
  let groups := dict_del group_id (registered_groups self) in
  {| config := config self;
     is_first_run := is_first_run self;
     seen_article_ids := seen_article_ids self;
     registered_groups := groups;
     seen_articles_file := seen_articles_file self;
     registered_groups_file := written (disk self) groups (registered_groups_file self);
     disk := disk self;
     trace := trace self ++ [SaveRegisteredGroups groups; Yield UnregisterOk] |}.

(** The [src] the loop body looks at when it visits an element. *)
Definition candidate (element : Tag) : option string :=
  match element with
  | Element name _ _ =>
      if decide (name = "figure") then
        (λ img, get_attr img "src" EmptyString) <$> find "img" element
      else if decide (name = "img") then Some (get_attr element "src" EmptyString)
      else None
  | NavigableString _ => None
  end.

Definition candidates (soup : Tag) : list string :=
  omap candidate (find_all ["figure"; "img"] soup).

(** The state of the extraction loop is consistent: the counter counts the
    images appended, stays within the cap, and every recorded URL was
    emitted and is absolute. *)
Definition consistent (st : extraction) : Prop :=
  image_count st = List.length (image_urls (components st))
  ∧ (image_count st ≤ max_images)%nat
  ∧ ∀ u, u ∈ processed_imgs st →
      u ∈ image_urls (components st) ∧ startswith_slash u = false.

(** Sample data for the examples. *)
Definition sample_article (article_id : Z) : Article.t :=
  Article.mk article_id EmptyString EmptyString 0 false false false 0 0 0 0 0 0 0
    EmptyString EmptyString EmptyString EmptyString false [] None [] 0 [] [] EmptyString.

Definition sample_page (article_ids : list Z) : ArticleListResponse.t :=
  ArticleListResponse.mk (Z.of_nat (List.length article_ids)) None None 1 1 30
    "created_at" "desc" (sample_article <$> article_ids).

Definition default_config : AstrBotConfig :=
  {| enable_beta_monitor := None; enable_release_monitor := None |}.

Definition img (src : string) : Tag := Element "img" {[ "src" := src ]} [].
Definition figure (contents : list Tag) : Tag := Element "figure" ∅ contents.
Definition document (contents : list Tag) : Tag := Element "[document]" ∅ contents.

Definition accept_http (url : string) : bool :=
  String.prefix "http://" url || String.prefix "https://" url.

(** ** main.py: where new articles are delivered *)

(** [s.lstrip()], [s.rstrip()] and [s.strip()]; [isspace] is Python's
    [str.isspace] on one character. *)
Fixpoint lstrip (isspace : ascii → bool) (s : string) : string :=
  match s with
  | EmptyString => EmptyString
  | String c rest => if isspace c then lstrip isspace rest else s
  end.

Fixpoint rstrip (isspace : ascii → bool) (s : string) : string :=
  match s with
  | EmptyString => EmptyString
  | String c rest =>
      match rstrip isspace rest with
      | EmptyString => if isspace c then EmptyString else String c EmptyString
      | String c' rest' => String c (String c' rest')
      end
  end.

Definition strip (isspace : ascii → bool) (s : string) : string :=
  rstrip isspace (lstrip isspace s).

(** Lines 200-210 of [_process_new_articles]: the group ids read from the
    configured comma-separated text, none when the text is blank. *)
Definition configured_group_ids (isspace : ascii → bool) (group_ids_str : string)
    : list string :=
  if negb (truthy group_ids_str) || negb (truthy (strip isspace group_ids_str))
  then []
  else List.filter truthy (strip isspace <$> split "," group_ids_str).

(** The addresses [_process_new_articles] sends each message to:
    [_send_to_registered_groups] walks the registry when it is not empty,
    otherwise [_send_to_groups] builds one address per configured id. *)
Definition delivery_targets (isspace : ascii → bool) (registered : dict)
    (group_ids_str : string) : list string :=
  match registered with
  | _ :: _ => registered.*2
  | [] => (λ gid, "group_" +:+ gid) <$> configured_group_ids isspace group_ids_str
  end.

(** ** Further vocabulary *)

(** [d.get(k)] on a dict. *)
Fixpoint dict_get (k : string) (d : dict) : option string :=
  match d with
  | [] => None
  | (k', v') :: rest => if decide (k' = k) then Some v' else dict_get k rest
  end.

Definition is_process (e : effect) : bool :=
  match e with ProcessNewArticles _ => true | _ => false end.

(** The two files hold what the attributes of the plugin object hold. *)
Definition in_sync (self : MyPlugin) : Prop :=
  _load_seen_articles (seen_articles_file self) = seen_article_ids self
  ∧ _load_registered_groups (registered_groups_file self) = registered_groups self.

(** Two plugin objects with the same attributes, whatever their files,
    the state of the disk and their past effects. *)
Definition same_memory (s1 s2 : MyPlugin) : Prop :=
  config s1 = config s2
  ∧ is_first_run s1 = is_first_run s2
  ∧ seen_article_ids s1 = seen_article_ids s2
  ∧ registered_groups s1 = registered_groups s2.

(** No occurrence of a character in a string. *)
Fixpoint free_of (c : ascii) (s : string) : Prop :=
  match s with
  | EmptyString => True
  | String c' rest => c' ≠ c ∧ free_of c rest
  end.

(** [sep.join(parts)] for a one-character separator. *)
Fixpoint join (sep : ascii) (parts : list string) : string :=
  match parts with
  | [] => EmptyString
  | [part] => part
  | part :: rest => part +:+ String sep (join sep rest)
  end.






(** The reading of "registering and then unregistering by the same address
    removes exactly that entry": afterwards the key just registered is
    gone and every other key is as it was. *)
Definition unregister_removes_registered_entry : Prop :=
  ∀ (self : MyPlugin) (event : AstrMessageEvent),
    NoDup (dict_keys (registered_groups self)) →
    let registered := exec (mcbe_register event) self in
    let after := exec (mcbe_unregister event) registered in
    dict_get (registration_key event) (registered_groups after) = None
    ∧ ∀ other, other ≠ registration_key event →
        dict_get other (registered_groups after)
        = dict_get other (registered_groups registered).

(** ** The two loops over a page *)

Ltac run_monad :=
  unfold exec, eval, bind, get, ret, emit, set_seen_article_ids,
    set_is_first_run, set_registered_groups, write_seen_articles_file,
    write_registered_groups_file in *; simpl in *.

Lemma page_ids_cons (article : Article.t) (rest : list Article.t) :
  page_ids (article :: rest) = {[Article.id article]} ∪ page_ids rest.
Proof. reflexivity. Qed.

Lemma elem_of_page_ids (articles : list Article.t) (i : Z) :
  i ∈ page_ids articles ↔ ∃ article, article ∈ articles ∧ Article.id article = i.
Proof.
  unfold page_ids. rewrite elem_of_list_to_set, list_elem_of_fmap. naive_solver.
Qed.

Lemma mark_all_seen_spec (articles : list Article.t) (self : MyPlugin) :
  mark_all_seen articles self
  = (tt, exec (set_seen_article_ids (seen_article_ids self ∪ page_ids articles)) self).
Proof.
  revert self. induction articles as [|article rest IH]; intros self.
  - destruct self. run_monad. do 2 f_equal. unfold page_ids. simpl. set_solver.
  - simpl. run_monad. rewrite IH. run_monad. do 2 f_equal.
    rewrite page_ids_cons. set_solver.
Qed.

Lemma select_new_spec (articles : list Article.t) (version_type : string)
    (acc : list (Article.t * string)) (self : MyPlugin) :
  select_new articles version_type acc self
  = (acc ++ tagged version_type (unseen articles (seen_article_ids self)),
     exec (set_seen_article_ids (seen_article_ids self ∪ page_ids articles)) self).
Proof.
  revert acc self. induction articles as [|article rest IH]; intros acc self.
  - destruct self. run_monad. rewrite app_nil_r. do 2 f_equal.
    unfold page_ids. simpl. set_solver.
  - simpl. run_monad. destruct (decide (Article.id article ∈ seen_article_ids self)).
    + rewrite IH. run_monad. do 2 f_equal. rewrite page_ids_cons. set_solver.
    + rewrite IH. run_monad. rewrite <- app_assoc. simpl. do 2 f_equal.
      rewrite page_ids_cons. set_solver.
Qed.

Lemma unseen_distinct (articles : list Article.t) (seen : gset Z) :
  NoDup (Article.id <$> articles) →
  unseen articles seen
  = List.filter (λ article, bool_decide (Article.id article ∉ seen)) articles.
Proof.
  revert seen. induction articles as [|article rest IH]; intros seen Hnd; [done|].
  simpl in *. apply NoDup_cons in Hnd as [Hfresh Hnd].
  destruct (decide (Article.id article ∈ seen)) as [Hin|Hin].
  - rewrite bool_decide_eq_false_2 by (intros H; by apply H). by apply IH.
  - rewrite bool_decide_eq_true_2 by done. f_equal. rewrite IH by done.
    apply filter_ext_in_iff. intros a Ha%list_elem_of_In.
    apply bool_decide_ext. split; [set_solver|].
    intros Hn Hu. apply elem_of_union in Hu as [Hu|Hu]; [|done].
    apply elem_of_singleton in Hu. apply Hfresh. rewrite <- Hu.
    apply list_elem_of_fmap. eauto.
Qed.

Lemma unseen_nil (articles : list Article.t) (seen : gset Z) :
  page_ids articles ⊆ seen → unseen articles seen = [].
Proof.
  induction articles as [|article rest IH]; intros Hsub; [done|].
  simpl. rewrite page_ids_cons in Hsub.
  rewrite decide_True by set_solver. apply IH. set_solver.
Qed.

Lemma unseen_fresh (articles : list Article.t) (seen : gset Z) (article : Article.t) :
  article ∈ unseen articles seen → Article.id article ∉ seen.
Proof.
  revert seen. induction articles as [|a rest IH]; intros seen; simpl.
  - by intros ?%elem_of_nil.
  - destruct (decide (Article.id a ∈ seen)); [by apply IH|].
    intros [->|Hin]%elem_of_cons; [done|]. apply IH in Hin. set_solver.
Qed.

Lemma unseen_nil_inv (articles : list Article.t) (seen : gset Z) :
  unseen articles seen = [] → page_ids articles ⊆ seen.
Proof.
  induction articles as [|a rest IH]; simpl; [set_solver|].
  rewrite page_ids_cons. destruct (decide (Article.id a ∈ seen)); [|done].
  intros H%IH. set_solver.
Qed.

(** ** One feed check *)

Lemma fetch_spec (outcome : http_outcome) (api_url version_type : string)
    (self : MyPlugin) :
  _fetch_articles outcome api_url version_type self
  = (fetch_result self outcome version_type, after_fetch self outcome api_url).
Proof.
  unfold _fetch_articles, fetch_result, after_fetch, fetch_effects, reported, saves.
  destruct (fetched outcome) as [data|].
  - run_monad. destruct (is_first_run self) eqn:Hfirst.
    + rewrite mark_all_seen_spec. unfold _save_seen_articles. run_monad.
      f_equal.
      * by destruct (ArticleListResponse.articles data).
      * f_equal. by rewrite <- app_assoc.
    + rewrite select_new_spec. run_monad.
      destruct (unseen (ArticleListResponse.articles data) (seen_article_ids self))
        as [|first others]; simpl; [done|].
      unfold _save_seen_articles. run_monad. do 2 f_equal.
      by rewrite <- app_assoc.
  - by run_monad.
Qed.

(** ** One cycle *)

Lemma beta_checked_config (self : MyPlugin) (b : http_outcome) :
  config (beta_checked self b) = config self.
Proof. unfold beta_checked. by destruct (config_get _). Qed.

Lemma beta_checked_first_run (self : MyPlugin) (b : http_outcome) :
  is_first_run (beta_checked self b) = is_first_run self.
Proof. unfold beta_checked. by destruct (config_get _). Qed.

Lemma release_checked_first_run (self : MyPlugin) (r : http_outcome) :
  is_first_run (release_checked self r) = is_first_run self.
Proof. unfold release_checked. by destruct (config_get _). Qed.

Lemma check_updates_eval (b r : http_outcome) (self : MyPlugin) :
  eval (_check_updates b r) self = cycle_result self b r.
Proof.
  unfold _check_updates, cycle_result, beta_result, release_result, beta_checked,
    _process_new_articles.
  run_monad.
  destruct (config_get (enable_beta_monitor (config self)));
    destruct (config_get (enable_release_monitor (config self))) eqn:Hrel;
    rewrite ?fetch_spec; run_monad; rewrite ?Hrel; rewrite ?fetch_spec; run_monad;
    repeat match goal with
    | |- context [if is_first_run ?s then _ else _] => destruct (is_first_run s)
    | |- context [match ?l ++ ?k with _ => _ end] => destruct (l ++ k) eqn:?
    | |- context [match ?l with [] => _ | _ => _ end] => destruct l eqn:?
    end; simpl; try done.
Qed.

Lemma check_updates_exec (b r : http_outcome) (self : MyPlugin) :
  exec (_check_updates b r) self = after_cycle self b r.
Proof.
  destruct self as [cfg first seen groups sfile gfile writable tr].
  unfold _check_updates, after_cycle, cycle_tail, cycle_result, beta_result,
    release_result, release_checked, beta_checked, _process_new_articles.
  run_monad.
  destruct (config_get (enable_beta_monitor cfg));
    destruct (config_get (enable_release_monitor cfg)) eqn:Hrel;
    rewrite ?fetch_spec; run_monad; rewrite ?Hrel; rewrite ?fetch_spec; run_monad;
    rewrite ?Hrel; simpl; rewrite ?app_nil_r;
    destruct first; simpl;
    repeat match goal with
    | |- context [match ?l ++ ?k with _ => _ end] => destruct (l ++ k) eqn:?
    | |- context [match ?l with [] => _ | _ => _ end] => destruct l eqn:?
    end; simpl; rewrite ?app_nil_r; try done;
    rewrite <- ?app_assoc; simpl; done.
Qed.

Lemma fetch_failure_fetched (outcome : http_outcome) :
  fetch_failure outcome ↔ fetched outcome = None.
Proof.
  split.
  - intros [|status validated Hbad|status]; simpl; [done|by rewrite Hbad|].
    by destruct (is_success status).
  - destruct outcome as [|status validated]; simpl; [constructor|].
    destruct (is_success status) eqn:Hs; [|by constructor].
    intros ->. apply validation_failure.
Qed.

Lemma fetched_success (status : Z) (data : ArticleListResponse.t) :
  is_success status = true → fetched (Response status (Some data)) = Some data.
Proof. simpl. by intros ->. Qed.

Lemma fetch_eval (outcome : http_outcome) (api_url version_type : string)
    (self : MyPlugin) :
  eval (_fetch_articles outcome api_url version_type) self
  = fetch_result self outcome version_type.
Proof. unfold eval. by rewrite fetch_spec. Qed.

Lemma fetch_exec (outcome : http_outcome) (api_url version_type : string)
    (self : MyPlugin) :
  exec (_fetch_articles outcome api_url version_type) self
  = after_fetch self outcome api_url.
Proof. unfold exec. by rewrite fetch_spec. Qed.

Lemma effects_of_fetch (outcome : http_outcome) (api_url version_type : string)
    (self : MyPlugin) :
  effects_of (_fetch_articles outcome api_url version_type) self
  = fetch_effects self outcome api_url.
Proof.
  unfold effects_of. rewrite fetch_exec. simpl. by rewrite drop_app_length.
Qed.

Lemma after_fetch_seen_mono (self : MyPlugin) (outcome : http_outcome)
    (api_url : string) :
  seen_article_ids self ⊆ seen_article_ids (after_fetch self outcome api_url).
Proof. simpl. destruct (fetched outcome); set_solver. Qed.

Lemma after_fetch_covers (self : MyPlugin) (outcome : http_outcome)
    (api_url : string) (data : ArticleListResponse.t) :
  fetched outcome = Some data →
  page_ids (ArticleListResponse.articles data)
  ⊆ seen_article_ids (after_fetch self outcome api_url).
Proof. simpl. intros ->. set_solver. Qed.

Lemma fetch_result_nil (self : MyPlugin) (outcome : http_outcome)
    (version_type : string) :
  is_first_run self = false →
  (∀ data, fetched outcome = Some data →
     page_ids (ArticleListResponse.articles data) ⊆ seen_article_ids self) →
  fetch_result self outcome version_type = [].
Proof.
  intros Hmode Hcov. unfold fetch_result, reported. rewrite Hmode.
  destruct (fetched outcome) as [data|]; [|done].
  by rewrite unseen_nil by auto.
Qed.

Lemma occurrences_tagged (i : Z) (version_type : string) (articles : list Article.t) :
  occurrences i (tagged version_type articles)
  = List.length (List.filter (λ a, bool_decide (Article.id a = i)) articles).
Proof.
  unfold occurrences, tagged. induction articles as [|a rest IH]; [done|].
  cbn [fmap list_fmap List.filter fst]. destruct (bool_decide (Article.id a = i)); cbn [List.length]; by rewrite <- IH.
Qed.

Lemma occurrences_absent (i : Z) (articles : list Article.t) :
  i ∉ Article.id <$> articles →
  List.filter (λ a, bool_decide (Article.id a = i)) articles = [].
Proof.
  induction articles as [|a rest IH]; [done|]. simpl.
  intros Hni. apply not_elem_of_cons in Hni as [Hne Hni].
  rewrite bool_decide_eq_false_2 by done. by apply IH.
Qed.

Lemma filter_ids_sub (P : Article.t → bool) (articles : list Article.t) (i : Z) :
  i ∈ Article.id <$> List.filter P articles → i ∈ Article.id <$> articles.
Proof.
  rewrite !list_elem_of_fmap. intros (a & -> & Ha).
  apply list_elem_of_In, filter_In in Ha as [Ha _]. exists a.
  by rewrite list_elem_of_In.
Qed.

Lemma occurrences_once (P : Article.t → bool) (version_type : string)
    (articles : list Article.t) (article : Article.t) :
  NoDup (Article.id <$> articles) → article ∈ articles → P article = true →
  occurrences (Article.id article) (tagged version_type (List.filter P articles)) = 1%nat.
Proof.
  rewrite occurrences_tagged.
  induction articles as [|a rest IH]; intros Hnd Hin HP.
  - by apply elem_of_nil in Hin.
  - simpl in Hnd. apply NoDup_cons in Hnd as [Hfresh Hnd].
    apply elem_of_cons in Hin as [<-|Hin].
    + simpl. rewrite HP. simpl. rewrite bool_decide_eq_true_2 by done. simpl.
      rewrite occurrences_absent; [done|].
      intros Hi. apply Hfresh. by eapply filter_ids_sub.
    + simpl. destruct (P a) eqn:HPa; [|by apply IH].
      simpl. rewrite bool_decide_eq_false_2; [by apply IH|].
      intros Heq. apply Hfresh. rewrite Heq. apply list_elem_of_fmap. eauto.
Qed.

(** ** Normal mode *)

(** C1. In normal mode, over a validated page whose articles have distinct
    ids, the check returns exactly the articles whose id was not in the
    seen-set, in page order: each such article occurs once in the result,
    and afterwards its id is in the seen-set, which has grown by the ids
    of the page. *)
Theorem normal_check_reports_each_unseen_once
    (self : MyPlugin) (status : Z) (data : ArticleListResponse.t)
    (api_url version_type : string) :
  is_first_run self = false →
  is_success status = true →
  NoDup (Article.id <$> ArticleListResponse.articles data) →
  let check := _fetch_articles (Response status (Some data)) api_url version_type in
  eval check self
  = tagged version_type
      (List.filter (λ a, bool_decide (Article.id a ∉ seen_article_ids self))
         (ArticleListResponse.articles data))
  ∧ (∀ article, article ∈ ArticleListResponse.articles data →
       Article.id article ∉ seen_article_ids self →
       occurrences (Article.id article) (eval check self) = 1%nat
       ∧ Article.id article ∈ seen_article_ids (exec check self))
  ∧ seen_article_ids (exec check self)
    = seen_article_ids self ∪ page_ids (ArticleListResponse.articles data).
Proof.
  intros Hmode Hok Hnd check. subst check.
  rewrite fetch_eval, fetch_exec. unfold fetch_result. simpl. rewrite Hok, Hmode.
  simpl. rewrite unseen_distinct by done. split; [done|]. split; [|done].
  intros article Hin Hfresh. split.
  - apply occurrences_once; [done..|]. by apply bool_decide_eq_true_2.
  - apply elem_of_union_r, elem_of_page_ids. eauto.
Qed.

Lemma normal_check_reports_each_unseen_once_example :
  let self := __init__ default_config (Stored [4]) Missing WriteOk in
  let check :=
    _fetch_articles (Response 200 (Some (sample_page [5; 4])))
      bedrock_news_api "Release" in
  eval check self = [(sample_article 5, "Release")]
  ∧ seen_article_ids (exec check self) = {[4; 5]}.
Proof.
  intros self check.
  assert (Hnd : NoDup (Article.id <$>
            ArticleListResponse.articles (sample_page [5; 4]))).
  { simpl. apply NoDup_cons. split; [|apply NoDup_singleton].
    intros H%list_elem_of_singleton. discriminate H. }
  destruct (normal_check_reports_each_unseen_once self 200 (sample_page [5; 4])
              bedrock_news_api "Release" eq_refl eq_refl Hnd) as (Hnew & _ & Hseen).
  split.
  - etrans; [exact Hnew|]. reflexivity.
  - etrans; [exact Hseen|]. reflexivity.
Defined.

(** ** First run *)

(** C2. While the first-run flag is true, a check over a non-empty
    validated page reports exactly one article, the first of the page, and
    afterwards the id of every article of the page is in the seen-set. *)
Theorem first_run_reports_newest_and_marks_all
    (self : MyPlugin) (status : Z) (data : ArticleListResponse.t)
    (api_url version_type : string) :
  is_first_run self = true →
  is_success status = true →
  ArticleListResponse.articles data ≠ [] →
  let check := _fetch_articles (Response status (Some data)) api_url version_type in
  (∃ newest rest,
     ArticleListResponse.articles data = newest :: rest
     ∧ eval check self = [(newest, version_type)])
  ∧ ∀ article, article ∈ ArticleListResponse.articles data →
      Article.id article ∈ seen_article_ids (exec check self).
Proof.
  intros Hmode Hok Hne check. subst check.
  rewrite fetch_eval, fetch_exec. unfold fetch_result. simpl. rewrite Hok, Hmode.
  simpl. split.
  - destruct (ArticleListResponse.articles data) as [|newest rest]; [done|].
    by exists newest, rest.
  - intros article Hin. apply elem_of_union_r, elem_of_page_ids. eauto.
Qed.

Lemma first_run_reports_newest_and_marks_all_example :
  let self := __init__ default_config Missing Missing WriteOk in
  let check :=
    _fetch_articles (Response 200 (Some (sample_page [9; 8; 7])))
      bedrock_beta_news_api "Beta" in
  (∃ newest rest,
     ArticleListResponse.articles (sample_page [9; 8; 7]) = newest :: rest
     ∧ eval check self = [(newest, "Beta")])
  ∧ ∀ article, article ∈ ArticleListResponse.articles (sample_page [9; 8; 7]) →
      Article.id article ∈ seen_article_ids (exec check self).
Proof.
  intros self check.
  apply (first_run_reports_newest_and_marks_all self 200 (sample_page [9; 8; 7])
           bedrock_beta_news_api "Beta" eq_refl eq_refl).
  discriminate.
Defined.

(** ** Idempotence *)

Lemma beta_checked_seen_mono (self : MyPlugin) (b : http_outcome) :
  seen_article_ids self ⊆ seen_article_ids (beta_checked self b).
Proof.
  unfold beta_checked. destruct (config_get _); [|done].
  apply after_fetch_seen_mono.
Qed.

Lemma release_checked_seen_mono (self : MyPlugin) (r : http_outcome) :
  seen_article_ids self ⊆ seen_article_ids (release_checked self r).
Proof.
  unfold release_checked. destruct (config_get _); [|done].
  apply after_fetch_seen_mono.
Qed.

Lemma beta_checked_covers (self : MyPlugin) (b : http_outcome)
    (data : ArticleListResponse.t) :
  config_get (enable_beta_monitor (config self)) = true →
  fetched b = Some data →
  page_ids (ArticleListResponse.articles data)
  ⊆ seen_article_ids (beta_checked self b).
Proof.
  intros Hon Hdata. unfold beta_checked. rewrite Hon.
  by apply after_fetch_covers.
Qed.

Lemma release_checked_covers (self : MyPlugin) (r : http_outcome)
    (data : ArticleListResponse.t) :
  config_get (enable_release_monitor (config self)) = true →
  fetched r = Some data →
  page_ids (ArticleListResponse.articles data)
  ⊆ seen_article_ids (release_checked self r).
Proof.
  intros Hon Hdata. unfold release_checked. rewrite Hon.
  by apply after_fetch_covers.
Qed.

Lemma cycle_twice_reports_nothing (b r : http_outcome) (self : MyPlugin) :
  eval (_check_updates b r) (exec (_check_updates b r) self) = [].
Proof.
  rewrite check_updates_exec, check_updates_eval.
  set (first := after_cycle self b r).
  assert (Hseen : seen_article_ids first
                  = seen_article_ids (release_checked (beta_checked self b) r)) by done.
  assert (Hcfg : config first = config self).
  { subst first. simpl. unfold release_checked.
    destruct (config_get _); simpl; apply beta_checked_config. }
  assert (Hfirst : is_first_run first = false) by done.
  unfold cycle_result, beta_result, release_result.
  rewrite beta_checked_config, Hcfg.
  rewrite (proj2 (app_nil _ _)); [done|]. split.
  - destruct (config_get (enable_beta_monitor (config self))) eqn:Hon; [|done].
    apply fetch_result_nil; [done|]. intros data Hdata. rewrite Hseen.
    etrans; [by apply beta_checked_covers|]. apply release_checked_seen_mono.
  - destruct (config_get (enable_release_monitor (config self))) eqn:Hon; [|done].
    apply fetch_result_nil; [by rewrite beta_checked_first_run|].
    intros data Hdata. etrans; [|apply beta_checked_seen_mono]. rewrite Hseen.
    apply release_checked_covers; [|done]. by rewrite beta_checked_config.
Qed.

(** C7. In normal mode, a feed check run a second time against the same
    answer of the feed reports nothing; the same holds for a whole cycle
    run twice against the same answers of both feeds. *)
Theorem normal_check_twice_reports_nothing
    (self : MyPlugin) (outcome beta_outcome release_outcome : http_outcome)
    (api_url version_type : string) :
  is_first_run self = false →
  let check := _fetch_articles outcome api_url version_type in
  let cycle := _check_updates beta_outcome release_outcome in
  eval check (exec check self) = []
  ∧ eval cycle (exec cycle self) = [].
Proof.
  intros Hmode check cycle. split; [|apply cycle_twice_reports_nothing].
  subst check. rewrite fetch_exec, fetch_eval.
  apply fetch_result_nil; [done|].
  intros data Hdata. by apply after_fetch_covers.
Qed.

Lemma normal_check_twice_reports_nothing_example :
  let self := __init__ default_config (Stored [4]) Missing WriteOk in
  let check :=
    _fetch_articles (Response 200 (Some (sample_page [5; 4])))
      bedrock_news_api "Release" in
  let cycle :=
    _check_updates (Response 200 (Some (sample_page [6; 3])))
      (Response 200 (Some (sample_page [5; 4]))) in
  eval check (exec check self) = []
  ∧ eval cycle (exec cycle self) = [].
Proof.
  intros self check cycle.
  apply (normal_check_twice_reports_nothing self). reflexivity.
Defined.

(** ** Failure of a feed *)

(** C9. When fetching a feed fails (the request raises, the status is not
    2xx, or the body does not validate), that feed's check returns no
    article and leaves the seen-set, the flag and the seen-ids file as
    they were; and a cycle whose beta fetch fails reports what the check
    of the release feed reports. *)
Theorem failed_feed_reports_nothing_and_is_isolated
    (self : MyPlugin) (failed release_outcome : http_outcome)
    (api_url version_type : string) :
  fetch_failure failed →
  let check := _fetch_articles failed api_url version_type in
  eval check self = []
  ∧ seen_article_ids (exec check self) = seen_article_ids self
  ∧ is_first_run (exec check self) = is_first_run self
  ∧ seen_articles_file (exec check self) = seen_articles_file self
  ∧ eval (_check_updates failed release_outcome) self
    = if config_get (enable_release_monitor (config self))
      then eval (_fetch_articles release_outcome bedrock_news_api "Release") self
      else [].
Proof.
  intros Hfail%fetch_failure_fetched check. subst check.
  rewrite !fetch_eval, fetch_exec, check_updates_eval.
  unfold cycle_result, beta_result, release_result, beta_checked, fetch_result.
  simpl. rewrite Hfail. simpl. repeat split; try done.
  destruct (config_get (enable_beta_monitor (config self))); simpl; [|done].
  by rewrite Hfail.
Qed.

Lemma failed_feed_reports_nothing_and_is_isolated_example :
  let self := __init__ default_config (Stored [4]) Missing WriteOk in
  eval (_check_updates (Response 503 None) (Response 200 (Some (sample_page [5; 4]))))
    self
  = [(sample_article 5, "Release")].
Proof.
  intros self.
  destruct (failed_feed_reports_nothing_and_is_isolated self (Response 503 None)
              (Response 200 (Some (sample_page [5; 4]))) bedrock_beta_news_api "Beta"
              (bad_status 503 None eq_refl)) as (_ & _ & _ & _ & Hcycle).
  etrans; [exact Hcycle|]. reflexivity.
Defined.

(** ** Start over an unloadable seen-ids file *)

(** C10. A process started over a seen-ids file that exists but cannot be
    loaded has the first-run flag false and an empty seen-set; its next
    feed check over a validated page of distinct ids therefore reports
    every article of the page. *)
Theorem unloadable_seen_file_starts_in_normal_mode
    (cfg : AstrBotConfig) (groups_file : file dict) (writable : write_outcome)
    (status : Z) (data : ArticleListResponse.t) (api_url version_type : string) :
  is_success status = true →
  NoDup (Article.id <$> ArticleListResponse.articles data) →
  let self := __init__ cfg Unloadable groups_file writable in
  is_first_run self = false
  ∧ seen_article_ids self = ∅
  ∧ eval (_fetch_articles (Response status (Some data)) api_url version_type) self
    = tagged version_type (ArticleListResponse.articles data).
Proof.
  intros Hok Hnd self. split; [done|]. split; [done|].
  rewrite fetch_eval. unfold fetch_result. simpl. rewrite Hok. simpl.
  rewrite unseen_distinct by done. f_equal.
  induction (ArticleListResponse.articles data) as [|a rest IH]; [done|].
  simpl in *. apply NoDup_cons in Hnd as [_ Hnd].
  rewrite bool_decide_eq_true_2 by set_solver. f_equal. by apply IH.
Qed.

Lemma unloadable_seen_file_starts_in_normal_mode_example :
  let self := __init__ default_config Unloadable Missing WriteOk in
  is_first_run self = false
  ∧ seen_article_ids self = ∅
  ∧ eval (_fetch_articles (Response 200 (Some (sample_page [9; 8; 7])))
            bedrock_beta_news_api "Beta") self
    = [(sample_article 9, "Beta"); (sample_article 8, "Beta");
       (sample_article 7, "Beta")].
Proof.
  assert (Hnd : NoDup (Article.id <$>
            ArticleListResponse.articles (sample_page [9; 8; 7]))).
  { simpl. repeat (apply NoDup_cons; split);
      [rewrite !elem_of_cons, elem_of_nil; intros [H|[H|[]]]; discriminate H
      |rewrite !elem_of_cons, elem_of_nil; intros [H|[]]; discriminate H
      |apply not_elem_of_nil|apply NoDup_nil_2]. }
  exact (unloadable_seen_file_starts_in_normal_mode default_config Missing WriteOk
           200 (sample_page [9; 8; 7]) bedrock_beta_news_api "Beta" eq_refl Hnd).
Defined.

(** ** The registry *)

Lemma unregister_scan_spec (items : dict) (origin : string) (self : MyPlugin) :
  unregister_scan items origin self
  = match find_origin items origin with
    | Some group_id => (true, after_unregister self group_id)
    | None => (false, self)
    end.
Proof.
  induction items as [|[group_id saved_origin] rest IH]; [done|].
  simpl. destruct (decide (saved_origin = origin)); [|done].
  unfold _save_registered_groups, after_unregister. run_monad.
  by rewrite <- app_assoc.
Qed.

Lemma find_origin_none (items : dict) (origin : string) :
  find_origin items origin = None ↔ ∀ entry, entry ∈ items → entry.2 ≠ origin.
Proof.
  induction items as [|[k v] rest IH]; simpl.
  - split; [|done]. by intros _ entry ?%elem_of_nil.
  - destruct (decide (v = origin)) as [->|Hne].
    + split; [done|]. intros H. destruct (H (k, origin)); [left|done].
    + rewrite IH. split.
      * intros H entry [->|Hin]%elem_of_cons; [done|by apply H].
      * intros H entry Hin. apply H. by right.
Qed.

Lemma find_origin_some (items : dict) (origin group_id : string) :
  find_origin items origin = Some group_id →
  ∃ before after,
    items = before ++ (group_id, origin) :: after
    ∧ ∀ entry, entry ∈ before → entry.2 ≠ origin.
Proof.
  induction items as [|[k v] rest IH]; simpl; [done|].
  destruct (decide (v = origin)) as [->|Hne].
  - intros [= ->]. exists [], rest. split; [done|]. by intros entry ?%elem_of_nil.
  - intros (before & after & -> & Hbefore)%IH.
    exists ((k, v) :: before), after. split; [done|].
    intros entry [->|Hin]%elem_of_cons; [done|by apply Hbefore].
Qed.

Lemma dict_del_absent (k : string) (d : dict) :
  k ∉ dict_keys d → dict_del k d = d.
Proof.
  unfold dict_keys. induction d as [|[k' v'] rest IH]; [done|].
  simpl. intros [Hne Hrest]%not_elem_of_cons.
  rewrite decide_False by done. by rewrite IH.
Qed.

Lemma dict_del_middle (k v : string) (before after : dict) :
  NoDup (dict_keys (before ++ (k, v) :: after)) →
  dict_del k (before ++ (k, v) :: after) = before ++ after.
Proof.
  unfold dict_keys. induction before as [|[k' v'] rest IH]; simpl.
  - intros _. by rewrite decide_True.
  - intros [Hfresh Hnd]%NoDup_cons. rewrite decide_False.
    + by rewrite IH.
    + intros ->. apply Hfresh. rewrite fmap_app. apply elem_of_app. right. left.
Qed.

Lemma dict_set_keys (k v : string) (d : dict) :
  dict_keys (dict_set k v d)
  = if decide (k ∈ dict_keys d) then dict_keys d else dict_keys d ++ [k].
Proof.
  unfold dict_keys. induction d as [|[k' v'] rest IH]; [done|]. cbn [dict_set].
  destruct (decide (k' = k)) as [->|Hne]; rewrite !fmap_cons; cbn [fst].
  - by rewrite decide_True by left.
  - rewrite IH. destruct (decide (k ∈ rest.*1)).
    + by rewrite decide_True by (by right).
    + rewrite decide_False; [done|]. by intros [?|?]%elem_of_cons.
Qed.

Lemma dict_set_NoDup (k v : string) (d : dict) :
  NoDup (dict_keys d) → NoDup (dict_keys (dict_set k v d)).
Proof.
  intros Hnd. rewrite dict_set_keys. destruct (decide _); [done|].
  apply NoDup_app. split; [done|]. split; [|apply NoDup_singleton].
  intros x Hx ->%list_elem_of_singleton. done.
Qed.

Lemma dict_del_set (k v : string) (d : dict) :
  dict_del k (dict_set k v d) = dict_del k d.
Proof.
  induction d as [|[k' v'] rest IH]; simpl.
  - by rewrite decide_True.
  - destruct (decide (k' = k)) as [->|Hne]; simpl.
    + by rewrite decide_True.
    + rewrite decide_False by done. by rewrite IH.
Qed.

Lemma dict_set_elem (k v : string) (d : dict) : (k, v) ∈ dict_set k v d.
Proof.
  induction d as [|[k' v'] rest IH]; simpl; [left|].
  destruct (decide (k' = k)); [left|by right].
Qed.

Lemma find_origin_dict_set (k origin : string) (d : dict) :
  (∀ entry, entry ∈ d → entry.2 = origin → entry.1 = k) →
  find_origin (dict_set k origin d) origin = Some k.
Proof.
  induction d as [|[k' v'] rest IH]; intros Honly; simpl.
  - by rewrite decide_True.
  - destruct (decide (k' = k)) as [->|Hne]; simpl.
    + by rewrite decide_True.
    + destruct (decide (v' = origin)) as [->|Hv].
      * destruct Hne. apply (Honly (k', origin)); [left|done].
      * apply IH. intros entry Hin. apply Honly. by right.
Qed.

Lemma register_exec (event : AstrMessageEvent) (self : MyPlugin) :
  let groups :=
    dict_set (registration_key event) (unified_msg_origin event)
      (registered_groups self) in
  exec (mcbe_register event) self
  = {| config := config self;
       is_first_run := is_first_run self;
       seen_article_ids := seen_article_ids self;
       registered_groups := groups;
       seen_articles_file := seen_articles_file self;
       registered_groups_file :=
         written (disk self) groups (registered_groups_file self);
       disk := disk self;
       trace := trace self
                ++ [SaveRegisteredGroups groups;
                    Yield (RegisterOk (registration_key event))] |}.
Proof.
  unfold mcbe_register, _save_registered_groups. run_monad.
  by rewrite <- app_assoc.
Qed.

Lemma unregister_exec (event : AstrMessageEvent) (self : MyPlugin) :
  exec (mcbe_unregister event) self
  = match find_origin (registered_groups self) (unified_msg_origin event) with
    | Some group_id => after_unregister self group_id
    | None => exec (emit (Yield NotRegistered)) self
    end.
Proof.
  unfold mcbe_unregister. run_monad. rewrite unregister_scan_spec.
  by destruct (find_origin _ _).
Qed.

(** ** When the seen-ids file is written *)

Lemma saves_iff_grows (seen : gset Z) (articles : list Article.t) :
  saves false seen articles = false ↔ seen ∪ page_ids articles = seen.
Proof.
  unfold saves. split.
  - destruct (unseen articles seen) eqn:Hunseen; [|done].
    intros _. apply unseen_nil_inv in Hunseen. set_solver.
  - intros Heq. rewrite unseen_nil; [done|]. set_solver.
Qed.

(** C6, as stated, fails: a first-run check over an empty page adds no id
    to the seen-set and still writes the seen-ids file. *)
Lemma first_run_check_of_empty_page_persists : ¬ persist_only_after_mutation.
Proof.
  intros Hclaim.
  destruct (Hclaim (__init__ default_config Missing Missing WriteOk)
              (Response 200 (Some (sample_page []))) bedrock_beta_news_api "Beta")
    as [_ Hfile]; [reflexivity|].
  discriminate Hfile.
Qed.

(** C6, amended. In normal mode a feed check calls [_save_seen_articles]
    only after it has added an id to the seen-set: a check that adds none
    makes no call and leaves the seen-ids file as it was, and one that adds
    some makes one call, with the grown set.  A check whose fetch fails
    makes no call in either mode.  A first-run check whose fetch succeeds
    makes exactly one call, whatever the page holds. *)
Theorem persist_follows_mutation_in_normal_mode
    (self : MyPlugin) (outcome : http_outcome) (api_url version_type : string) :
  let check := _fetch_articles outcome api_url version_type in
  let saved := List.filter is_save_seen (effects_of check self) in
  let seen := seen_article_ids (exec check self) in
  (is_first_run self = false →
     (seen = seen_article_ids self →
        saved = [] ∧ seen_articles_file (exec check self) = seen_articles_file self)
     ∧ (seen ≠ seen_article_ids self → saved = [SaveSeenArticles seen]))
  ∧ (fetch_failure outcome →
       saved = [] ∧ seen_articles_file (exec check self) = seen_articles_file self)
  ∧ (is_first_run self = true → fetch_failure outcome ∨ saved = [SaveSeenArticles seen]).
Proof.
  intros check saved seen. subst check saved seen.
  rewrite effects_of_fetch, fetch_exec. unfold fetch_effects. simpl.
  destruct (fetched outcome) as [data|] eqn:Hfetched; simpl.
  - split; [|split].
    + intros Hmode. rewrite Hmode. split.
      * intros Hsame%saves_iff_grows. by rewrite Hsame.
      * intros Hgrown.
        destruct (saves false _ _) eqn:Hsaves; [done|].
        by apply saves_iff_grows in Hsaves.
    + intros Hfail%fetch_failure_fetched. congruence.
    + intros ->. by right.
  - split; [done|]. split; [done|]. intros _. left.
    by apply fetch_failure_fetched.
Qed.

Lemma persist_follows_mutation_in_normal_mode_example :
  let self := __init__ default_config (Stored [5; 4]) Missing WriteOk in
  let check :=
    _fetch_articles (Response 200 (Some (sample_page [5; 4])))
      bedrock_news_api "Release" in
  List.filter is_save_seen (effects_of check self) = []
  ∧ seen_articles_file (exec check self) = Stored [5; 4].
Proof.
  intros self check.
  destruct (persist_follows_mutation_in_normal_mode self
              (Response 200 (Some (sample_page [5; 4]))) bedrock_news_api "Release")
    as (Hnormal & _ & _).
  destruct (Hnormal eq_refl) as [Hsame _].
  apply Hsame. reflexivity.
Defined.

(** ** The first-run flag *)

Lemma exec_bind {A B} (m : M A) (k : A → M B) (self : MyPlugin) :
  exec (bind m k) self = exec (k (eval m self)) (exec m self).
Proof. unfold exec, eval, bind. by destruct (m self). Qed.

Lemma perform_keeps_normal_mode (op : operation) (self : MyPlugin) :
  is_first_run self = false → is_first_run (exec (perform op) self) = false.
Proof.
  intros Hmode. destruct op as [b r|b r|event|event|]; cbn [perform].
  - rewrite exec_bind, check_updates_exec. done.
  - unfold mcbe_check. rewrite !exec_bind, check_updates_exec. done.
  - by rewrite register_exec.
  - rewrite unregister_exec. by destruct (find_origin _ _).
  - done.
Qed.

Lemma perform_all_keeps_normal_mode (ops : list operation) (self : MyPlugin) :
  is_first_run self = false → is_first_run (exec (perform_all ops) self) = false.
Proof.
  revert self. induction ops as [|op rest IH]; intros self Hmode; [done|].
  simpl. rewrite exec_bind. apply IH. by apply perform_keeps_normal_mode.
Qed.

Lemma fetch_effects_no_assignment (self : MyPlugin) (outcome : http_outcome)
    (api_url : string) :
  Forall (λ e, is_assignment e = false) (fetch_effects self outcome api_url).
Proof.
  unfold fetch_effects. destruct (fetched outcome); [destruct (saves _ _ _)|];
    repeat constructor.
Qed.

Lemma cycle_tail_no_http_get (first_run : bool)
    (new_articles : list (Article.t * string)) :
  Forall (λ e, is_http_get e = false) (cycle_tail first_run new_articles).
Proof.
  unfold cycle_tail. destruct first_run, new_articles; repeat constructor.
Qed.

Lemma filter_none {A} (P : A → bool) (l : list A) :
  Forall (λ x, P x = false) l → List.filter P l = [].
Proof.
  induction 1 as [|x l Hx _ IH]; [done|]. simpl. by rewrite Hx.
Qed.

Lemma checked_trace (b r : http_outcome) (self : MyPlugin) :
  ∃ checks,
    trace (release_checked (beta_checked self b) r) = trace self ++ checks
    ∧ Forall (λ e, is_assignment e = false) checks.
Proof.
  unfold release_checked, beta_checked.
  destruct (config_get (enable_beta_monitor (config self)));
    destruct (config_get (enable_release_monitor _)); cbn [after_fetch trace].
  - exists (fetch_effects self b bedrock_beta_news_api
            ++ fetch_effects (after_fetch self b bedrock_beta_news_api) r
                 bedrock_news_api).
    split; [by rewrite app_assoc|].
    apply Forall_app. split; apply fetch_effects_no_assignment.
  - exists (fetch_effects self b bedrock_beta_news_api).
    split; [done|apply fetch_effects_no_assignment].
  - exists (fetch_effects self r bedrock_news_api).
    split; [done|apply fetch_effects_no_assignment].
  - exists []. split; [by rewrite app_nil_r|constructor].
Qed.

Lemma effects_of_cycle (b r : http_outcome) (self : MyPlugin) :
  ∃ checks,
    effects_of (_check_updates b r) self
    = checks ++ cycle_tail (is_first_run self) (cycle_result self b r)
    ∧ Forall (λ e, is_assignment e = false) checks.
Proof.
  destruct (checked_trace b r self) as (checks & Htrace & Hchecks).
  exists checks. split; [|done].
  unfold effects_of. rewrite check_updates_exec.
  cbn [after_cycle trace]. rewrite Htrace, <- app_assoc.
  by rewrite drop_app_length.
Qed.

(** C3. A cycle ends with the first-run flag false.  Its effects split into
    the checks of the feeds, which never assign the flag, and what follows
    them, which fetches nothing; the flag is assigned once, to false, in a
    cycle that starts with it true, and not at all otherwise.  Both feed
    checks of a cycle therefore run under the flag the cycle started with,
    whichever feeds are enabled and whatever their fetches give.  No
    operation of a running plugin turns a false flag back to true. *)
Theorem first_run_flag_cleared_once_after_both_feeds
    (self later : MyPlugin) (beta_outcome release_outcome : http_outcome)
    (ops : list operation) :
  let cycle := _check_updates beta_outcome release_outcome in
  let beta_on := config_get (enable_beta_monitor (config self)) in
  let release_on := config_get (enable_release_monitor (config self)) in
  let beta_check := _fetch_articles beta_outcome bedrock_beta_news_api "Beta" in
  let release_check := _fetch_articles release_outcome bedrock_news_api "Release" in
  let after_beta := if beta_on then exec beta_check self else self in
  is_first_run (exec cycle self) = false
  ∧ List.filter is_assignment (effects_of cycle self)
    = (if is_first_run self then [AssignFirstRun false] else [])
  ∧ (∃ checks rest,
       effects_of cycle self = checks ++ rest
       ∧ Forall (λ e, is_assignment e = false) checks
       ∧ Forall (λ e, is_http_get e = false) rest)
  ∧ is_first_run after_beta = is_first_run self
  ∧ eval cycle self
    = (if beta_on then eval beta_check self else [])
      ++ (if release_on then eval release_check after_beta else [])
  ∧ (is_first_run later = false →
     is_first_run (exec (perform_all ops) later) = false).
Proof.
  intros cycle beta_on release_on beta_check release_check after_beta.
  subst cycle beta_check release_check.
  destruct (effects_of_cycle beta_outcome release_outcome self)
    as (checks & Heffects & Hchecks).
  assert (Hafter : after_beta = beta_checked self beta_outcome).
  { subst after_beta. unfold beta_checked. fold beta_on.
    destruct beta_on; [apply fetch_exec|done]. }
  split; [by rewrite check_updates_exec|]. split; [|split; [|split; [|split]]].
  - rewrite Heffects, List.filter_app, filter_none by done.
    unfold cycle_tail. destruct (is_first_run self), (cycle_result _ _ _); done.
  - exists checks, (cycle_tail (is_first_run self)
                      (cycle_result self beta_outcome release_outcome)).
    split; [done|]. split; [done|]. apply cycle_tail_no_http_get.
  - rewrite Hafter. apply beta_checked_first_run.
  - rewrite check_updates_eval, Hafter. unfold cycle_result. f_equal.
    + unfold beta_result. fold beta_on. destruct beta_on; [|done].
      by rewrite fetch_eval.
    + unfold release_result. rewrite beta_checked_config. fold release_on.
      destruct release_on; [|done]. by rewrite fetch_eval.
  - apply perform_all_keeps_normal_mode.
Qed.

Lemma first_run_flag_cleared_once_after_both_feeds_example :
  let fresh := __init__ default_config Missing Missing WriteOk in
  let beta := Response 200 (Some (sample_page [6; 3])) in
  let release := Response 200 (Some (sample_page [5; 4])) in
  let started := exec (_check_updates beta release) fresh in
  eval (_check_updates beta release) fresh
  = [(sample_article 6, "Beta"); (sample_article 5, "Release")]
  ∧ List.filter is_assignment (effects_of (_check_updates beta release) fresh)
    = [AssignFirstRun false]
  ∧ is_first_run
      (exec (perform_all
               [CmdCheck beta release;
                CmdRegister {| unified_msg_origin := "qq:group:333"; group_id := None |};
                ScheduledCheck RequestError release])
         started)
    = false.
Proof.
  intros fresh beta release started.
  destruct (first_run_flag_cleared_once_after_both_feeds fresh started beta release
              [CmdCheck beta release;
               CmdRegister {| unified_msg_origin := "qq:group:333"; group_id := None |};
               ScheduledCheck RequestError release])
    as (Hcleared & Honce & _ & _ & Hnew & Hstays).
  split; [etrans; [exact Hnew|reflexivity]|]. split.
  - etrans; [exact Honce|reflexivity].
  - apply Hstays. exact Hcleared.
Defined.

(** ** Image extraction *)

Lemma resolve_absolute (src : string) : startswith_slash (resolve src) = false.
Proof.
  unfold resolve. destruct (startswith_slash src) eqn:Hslash; [done|exact Hslash].
Qed.

Lemma image_urls_app (cs ds : list Component) :
  image_urls (cs ++ ds) = image_urls cs ++ image_urls ds.
Proof. apply omap_app. Qed.

Lemma add_image_accepted (accepted : string → bool) (src : string) (st : extraction) :
  accepted (resolve src) = true →
  add_image accepted src st
  = {| components := components st ++ [Image (resolve src); Plain newline];
       image_count := S (image_count st);
       processed_imgs := {[resolve src]} ∪ processed_imgs st |}.
Proof. intros Hacc. unfold add_image, fromURL. by rewrite Hacc. Qed.

Lemma add_image_rejected (accepted : string → bool) (src : string) (st : extraction) :
  accepted (resolve src) = false → add_image accepted src st = st.
Proof. intros Hacc. unfold add_image, fromURL. by rewrite Hacc. Qed.

(** A visit either changes nothing or adds the image of its candidate. *)
Lemma visit_cases (accepted : string → bool) (st : extraction) (element : Tag) :
  visit accepted st element = st
  ∨ ∃ src,
      candidate element = Some src
      ∧ truthy src = true
      ∧ (src ∉ processed_imgs st)
      ∧ (image_count st < max_images)%nat
      ∧ accepted (resolve src) = true
      ∧ visit accepted st element = add_image accepted src st.
Proof.
  destruct element as [name attrs contents|text]; [|by left].
  unfold visit, candidate.
  destruct (decide (name = "figure")) as [->|Hfig].
  - destruct (find "img" _) as [img|]; [|by left]. simpl.
    destruct (image_count st <? max_images)%nat eqn:Hcap; [|by left].
    destruct (truthy _) eqn:Htruthy; [|by left].
    destruct (bool_decide _) eqn:Hnew; [|by left]. simpl.
    destruct (accepted (resolve (get_attr img "src" EmptyString))) eqn:Hacc.
    + right. eexists. repeat split; try done.
      * by apply bool_decide_eq_true in Hnew.
      * by apply Nat.ltb_lt.
    + left. by apply add_image_rejected.
  - destruct (decide (name = "img")) as [->|Himg]; [|by left].
    destruct (truthy _) eqn:Htruthy; [|by left].
    destruct (bool_decide _) eqn:Hnew; [|by left].
    destruct (image_count st <? max_images)%nat eqn:Hcap; [|by left]. simpl.
    destruct (accepted (resolve (get_attr (Element "img" attrs contents) "src" EmptyString)))
      eqn:Hacc.
    + right. eexists. repeat split; try done.
      * by apply bool_decide_eq_true in Hnew.
      * by apply Nat.ltb_lt.
    + left. by apply add_image_rejected.
Qed.

Lemma visit_consistent (accepted : string → bool) (st : extraction) (element : Tag) :
  consistent st → consistent (visit accepted st element).
Proof.
  intros (Hcount & Hcap & Hprocessed).
  destruct (visit_cases accepted st element)
    as [->|(src & _ & _ & _ & Hroom & Hacc & ->)]; [done|].
  rewrite add_image_accepted by done. unfold consistent. simpl.
  rewrite image_urls_app, length_app. simpl. split; [lia|]. split.
  - unfold max_images in *. lia.
  - intros u [->%elem_of_singleton|Hu]%elem_of_union.
    + split; [|apply resolve_absolute]. apply elem_of_app. right. left.
    + destruct (Hprocessed u Hu). split; [|done]. apply elem_of_app. by left.
Qed.

Lemma visit_grows (accepted : string → bool) (st : extraction) (element : Tag) :
  image_urls (components st)
  `prefix_of` image_urls (components (visit accepted st element)).
Proof.
  destruct (visit_cases accepted st element)
    as [->|(src & _ & _ & _ & _ & Hacc & ->)]; [done|].
  rewrite add_image_accepted by done. simpl. rewrite image_urls_app.
  by apply prefix_app_r.
Qed.

Lemma loop_consistent (accepted : string → bool) (elements : list Tag)
    (st : extraction) :
  consistent st → consistent (extract_loop accepted elements st).
Proof.
  revert st. induction elements as [|element rest IH]; intros st Hst; [done|].
  simpl. apply IH. by apply visit_consistent.
Qed.

Lemma loop_grows (accepted : string → bool) (elements : list Tag) (st : extraction) :
  image_urls (components st)
  `prefix_of` image_urls (components (extract_loop accepted elements st)).
Proof.
  revert st. induction elements as [|element rest IH]; intros st; [done|].
  simpl. etrans; [apply visit_grows|apply IH].
Qed.

(** Each component list the loop builds is its images, each followed by a
    line break. *)
Lemma loop_shape (accepted : string → bool) (elements : list Tag) (st : extraction) :
  components st = flat_map (λ u, [Image u; Plain newline]) (image_urls (components st)) →
  components (extract_loop accepted elements st)
  = flat_map (λ u, [Image u; Plain newline])
      (image_urls (components (extract_loop accepted elements st))).
Proof.
  revert st. induction elements as [|element rest IH]; intros st Hst; [done|].
  simpl. apply IH.
  destruct (visit_cases accepted st element)
    as [->|(src & _ & _ & _ & _ & Hacc & ->)]; [done|].
  rewrite add_image_accepted by done. simpl.
  rewrite image_urls_app, flat_map_app. simpl. by rewrite <- Hst.
Qed.

(** The images come in the order of the elements visited. *)
Lemma loop_order (accepted : string → bool) (elements : list Tag) (st : extraction) :
  ∃ added,
    image_urls (components (extract_loop accepted elements st))
    = image_urls (components st) ++ added
    ∧ added `sublist_of` (resolve <$> omap candidate elements).
Proof.
  revert st. induction elements as [|element rest IH]; intros st.
  - exists []. by rewrite app_nil_r.
  - simpl. destruct (IH (visit accepted st element)) as (added & -> & Hsub).
    destruct (visit_cases accepted st element)
      as [->|(src & Hcand & _ & _ & _ & Hacc & ->)].
    + exists added. split; [done|].
      destruct (candidate element); [|done]. simpl. by apply sublist_cons.
    + rewrite add_image_accepted by done. simpl. rewrite image_urls_app. simpl.
      exists (resolve src :: added). split; [by rewrite <- app_assoc|].
      rewrite Hcand. simpl. by apply sublist_skip.
Qed.

Lemma visit_img (accepted : string → bool) (st : extraction) (element : Tag) :
  is_named ["img"] element = true →
  visit accepted st element
  = if truthy (get_attr element "src" EmptyString)
       && bool_decide (get_attr element "src" EmptyString ∉ processed_imgs st)
       && (image_count st <? max_images)%nat
    then add_image accepted (get_attr element "src" EmptyString) st
    else st.
Proof.
  destruct element as [name attrs contents|text]; [|done]. simpl.
  intros Hname%bool_decide_eq_true%list_elem_of_singleton. subst name.
  rewrite decide_False by done. by rewrite decide_True.
Qed.

(** While there is room under the cap, visiting an [<img>] whose source is
    not empty and is accepted leaves the image of that source emitted. *)
Lemma visit_img_emits (accepted : string → bool) (st : extraction) (element : Tag) :
  consistent st →
  is_named ["img"] element = true →
  let src := get_attr element "src" EmptyString in
  truthy src = true →
  accepted (resolve src) = true →
  (image_count (visit accepted st element) < max_images)%nat →
  resolve src ∈ image_urls (components (visit accepted st element)).
Proof.
  intros (Hcount & Hcap & Hprocessed) Himg src Htruthy Hacc.
  rewrite visit_img by done. fold src. rewrite Htruthy. cbn [andb].
  destruct (bool_decide (src ∉ processed_imgs st)) eqn:Hnew; cbn [andb].
  - destruct (image_count st <? max_images)%nat eqn:Hroom.
    + intros _. rewrite add_image_accepted by done. simpl.
      rewrite image_urls_app. apply elem_of_app. right. left.
    + intros Hlt. apply Nat.ltb_ge in Hroom. lia.
  - intros _. apply bool_decide_eq_false in Hnew.
    assert (Hin : src ∈ processed_imgs st).
    { destruct (decide (src ∈ processed_imgs st)); [done|]. by destruct Hnew. }
    destruct (Hprocessed src Hin) as [Hemitted Habs].
    unfold resolve. by rewrite Habs.
Qed.

Lemma loop_emits (accepted : string → bool) (elements : list Tag) (st : extraction)
    (element : Tag) :
  consistent st →
  element ∈ elements →
  is_named ["img"] element = true →
  let src := get_attr element "src" EmptyString in
  truthy src = true →
  accepted (resolve src) = true →
  (image_count (extract_loop accepted elements st) < max_images)%nat →
  resolve src ∈ image_urls (components (extract_loop accepted elements st)).
Proof.
  intros Hst Hin Himg src Htruthy Hacc. revert st Hst.
  induction elements as [|first rest IH]; intros st Hst Hroom.
  - by apply elem_of_nil in Hin.
  - simpl in *. apply elem_of_cons in Hin as [<-|Hin].
    + eapply elem_of_prefix; [|apply loop_grows].
      apply visit_img_emits; try done.
      pose proof (visit_consistent accepted st element Hst) as (Hc1 & _ & _).
      pose proof (loop_consistent accepted rest _
                    (visit_consistent accepted st element Hst)) as (Hc2 & _ & _).
      pose proof (prefix_length _ _
                    (loop_grows accepted rest (visit accepted st element))).
      lia.
    + apply IH; [done| |done]. by apply visit_consistent.
Qed.

Lemma extraction_start_consistent : consistent extraction_start.
Proof.
  split; [done|]. split; [unfold max_images; simpl; lia|].
  intros u Hu. by apply not_elem_of_empty in Hu.
Qed.

Lemma img_is_visited (soup element : Tag) :
  element ∈ find_all ["img"] soup →
  element ∈ find_all ["figure"; "img"] soup ∧ is_named ["img"] element = true.
Proof.
  unfold find_all. rewrite !list_elem_of_In, !filter_In.
  intros [Hin Himg]. split; [|done]. split; [done|].
  destruct element as [name attrs contents|text]; [|done]. simpl in *.
  apply bool_decide_eq_true in Himg. apply bool_decide_eq_true_2. by right.
Qed.

(** While no source the loop looks at starts with a slash, the set of
    processed sources does its work: no URL is emitted twice. *)
Lemma loop_absolute_sources_once (accepted : string → bool) (elements : list Tag)
    (st : extraction) :
  Forall (λ src, startswith_slash src = false) (omap candidate elements) →
  NoDup (image_urls (components st)) →
  (∀ u, u ∈ image_urls (components st) → u ∈ processed_imgs st) →
  NoDup (image_urls (components (extract_loop accepted elements st))).
Proof.
  revert st. induction elements as [|element rest IH]; intros st Habs Hnd Hrec;
    [done|].
  simpl in *.
  assert (Hrest : Forall (λ src, startswith_slash src = false) (omap candidate rest)).
  { destruct (candidate element); [by apply Forall_cons in Habs as [_ ?]|done]. }
  destruct (visit_cases accepted st element)
    as [->|(src & Hcand & _ & Hnew & _ & Hacc & ->)]; [by apply IH|].
  rewrite Hcand in Habs. apply Forall_cons in Habs as [Hsrc _].
  assert (Hres : resolve src = src) by (unfold resolve; by rewrite Hsrc).
  apply IH; [done|..]; rewrite add_image_accepted by done; simpl;
    rewrite image_urls_app, Hres; simpl.
  - apply NoDup_app. split; [done|]. split; [|apply NoDup_singleton].
    intros u Hu ->%list_elem_of_singleton. by apply Hnew, Hrec.
  - intros u [Hu|Hu%list_elem_of_singleton]%elem_of_app; [|set_solver].
    apply elem_of_union_r. by apply Hrec.
Qed.

Lemma absolute_sources_emitted_once (accepted : string → bool) (soup : Tag) :
  Forall (λ src, startswith_slash src = false) (candidates soup) →
  NoDup (image_urls (_extract_content_with_images accepted soup)).
Proof.
  intros Habs. apply loop_absolute_sources_once; [done|apply NoDup_nil_2|].
  intros u Hu. by apply elem_of_nil in Hu.
Qed.

(** C4. The extraction does not deduplicate a source that starts with a
    slash: the set of processed images records the resolved URL while the
    membership test looks up the unresolved [src].  A root-relative source
    given twice, and a root-relative [<img>] inside a [<figure>] (met once
    through the figure and once as the [<img>] itself), are each emitted
    twice; the same pairs with an absolute source are emitted once. *)
Theorem root_relative_source_is_emitted_twice :
  image_urls
    (_extract_content_with_images accept_http (document [img "/a.png"; img "/a.png"]))
  = ["https://feedback.minecraft.net/a.png"; "https://feedback.minecraft.net/a.png"]
  ∧ image_urls
      (_extract_content_with_images accept_http (document [figure [img "/a.png"]]))
    = ["https://feedback.minecraft.net/a.png"; "https://feedback.minecraft.net/a.png"]
  ∧ image_urls
      (_extract_content_with_images accept_http
         (document [img "https://cdn.example/a.png"; img "https://cdn.example/a.png"]))
    = ["https://cdn.example/a.png"]
  ∧ image_urls
      (_extract_content_with_images accept_http
         (document [figure [img "https://cdn.example/a.png"]]))
    = ["https://cdn.example/a.png"].
Proof. repeat split; vm_compute; reflexivity. Qed.

(** ** Persistence across restarts *)

Lemma disk_writable_ok (self : MyPlugin) :
  disk_writable self = true ↔ disk self = WriteOk.
Proof. unfold disk_writable. by destruct (disk self). Qed.

(** X1. What is written is what is loaded: after [_save_seen_articles] and
    [_save_registered_groups] on a writable disk, loading the files gives
    the set and the registry the plugin holds. *)
Theorem saved_state_loads_back (self : MyPlugin) :
  disk_writable self = true →
  _load_seen_articles (seen_articles_file (exec _save_seen_articles self))
  = seen_article_ids self
  ∧ _load_registered_groups
      (registered_groups_file (exec _save_registered_groups self))
    = registered_groups self.
Proof.
  intros Hdisk%disk_writable_ok.
  unfold _save_seen_articles, _save_registered_groups. run_monad.
  rewrite Hdisk. simpl. split; [|done]. apply list_to_set_elements_L.
Qed.

Lemma saved_state_loads_back_example :
  let self := __init__ default_config (Stored [7; 3; 7]) Missing WriteOk in
  _load_seen_articles (seen_articles_file (exec _save_seen_articles self))
  = {[3; 7]}.
Proof.
  intros self.
  destruct (saved_state_loads_back self eq_refl) as [Hseen _].
  etrans; [exact Hseen|]. reflexivity.
Defined.

Lemma checked_first_run (self : MyPlugin) (b r : http_outcome) :
  is_first_run (release_checked (beta_checked self b) r) = is_first_run self.
Proof. by rewrite release_checked_first_run, beta_checked_first_run. Qed.

(** The end of a cycle, as steps after the two feed checks. *)
Lemma after_cycle_steps (self : MyPlugin) (b r : http_outcome) :
  after_cycle self b r
  = exec (run! (if is_first_run self then set_is_first_run false else ret tt) in
          match cycle_result self b r with
          | [] => ret tt
          | _ :: _ => emit (ProcessNewArticles (cycle_result self b r))
          end)
      (release_checked (beta_checked self b) r).
Proof.
  unfold after_cycle, cycle_tail.
  pose proof (checked_first_run self b r) as Hflag.
  destruct (release_checked (beta_checked self b) r)
    as [cfg first seen groups sfile gfile writable tr].
  simpl in Hflag. subst first.
  destruct (is_first_run self), (cycle_result self b r); run_monad;
    rewrite ?app_nil_r, <- ?app_assoc; done.
Qed.

(** A property of the plugin object that every step of an operation
    keeps is kept by every sequence of operations. *)
Lemma perform_all_invariant (P : MyPlugin → Prop) :
  (∀ self e, P self → P (exec (emit e) self)) →
  (∀ self outcome api_url, P self → P (after_fetch self outcome api_url)) →
  (∀ self, P self → P (exec (set_is_first_run false) self)) →
  (∀ self event, P self → P (exec (mcbe_register event) self)) →
  (∀ self group_id, P self → P (after_unregister self group_id)) →
  ∀ ops self, P self → P (exec (perform_all ops) self).
Proof.
  intros Hemit Hfetch Hclear Hregister Hunregister.
  assert (Hcycle : ∀ self b r, P self → P (exec (_check_updates b r) self)).
  { intros self b r HP. rewrite check_updates_exec, after_cycle_steps, exec_bind.
    assert (Hchecked : P (release_checked (beta_checked self b) r)).
    { unfold release_checked, beta_checked.
      destruct (config_get (enable_beta_monitor _)),
        (config_get (enable_release_monitor _)); auto. }
    assert (Hcleared : P (exec (if is_first_run self
                                then set_is_first_run false else ret tt)
                            (release_checked (beta_checked self b) r))).
    { destruct (is_first_run self); [by apply Hclear|done]. }
    destruct (cycle_result self b r); [done|by apply Hemit]. }
  induction ops as [|op rest IH]; intros self HP; [done|].
  cbn [perform_all]. rewrite exec_bind. apply IH.
  destruct op as [b r|b r|event|event|]; cbn [perform].
  - rewrite exec_bind. by apply Hcycle.
  - unfold mcbe_check. rewrite !exec_bind. by apply Hemit, Hcycle, Hemit.
  - by apply Hregister.
  - rewrite unregister_exec. destruct (find_origin _ _); [by apply Hunregister|].
    by apply Hemit.
  - by apply Hemit.
Qed.

Lemma after_fetch_in_sync (self : MyPlugin) (outcome : http_outcome) (api_url : string) :
  disk_writable self = true → in_sync self →
  in_sync (after_fetch self outcome api_url).
Proof.
  intros Hdisk%disk_writable_ok [Hseen Hgroups]. split; [|done]. simpl.
  rewrite Hdisk. destruct (fetched outcome) as [data|]; [|done].
  destruct (saves _ _ _) eqn:Hsaves; simpl; [apply list_to_set_elements_L|].
  destruct (is_first_run self); [done|].
  apply saves_iff_grows in Hsaves. by rewrite Hsaves.
Qed.

(** X2. As long as the disk can be written, the files follow the plugin
    object through every sequence of scheduled checks and commands: a
    process restarted over the files starts with the seen-set and the
    registry the stopped one held. *)
Theorem restart_recovers_seen_set_and_registry
    (cfg : AstrBotConfig) (seen_file : file (list Z)) (groups_file : file dict)
    (ops : list operation) :
  let stopped := exec (perform_all ops) (__init__ cfg seen_file groups_file WriteOk) in
  let restarted :=
    __init__ cfg (seen_articles_file stopped) (registered_groups_file stopped) WriteOk in
  seen_article_ids restarted = seen_article_ids stopped
  ∧ registered_groups restarted = registered_groups stopped.
Proof.
  intros stopped restarted.
  assert (Hinv : in_sync stopped ∧ disk_writable stopped = true).
  { subst stopped.
    apply (perform_all_invariant (λ s, in_sync s ∧ disk_writable s = true)).
    - by intros self e [[? ?] ?].
    - intros self outcome api_url [Hsync Hdisk]. split; [|done].
      by apply after_fetch_in_sync.
    - by intros self [[? ?] ?].
    - intros self event [[Hseen Hgroups] Hdisk]. rewrite register_exec.
      split; [|done]. split; [done|]. simpl.
      by rewrite (proj1 (disk_writable_ok self) Hdisk).
    - intros self group_id [[Hseen Hgroups] Hdisk].
      split; [|done]. split; [done|]. simpl.
      by rewrite (proj1 (disk_writable_ok self) Hdisk).
    - done. }
  by destruct Hinv as [[? ?] _].
Qed.

(** X3. The seen-set only grows: no scheduled check and no command removes an
    id from it. *)
Theorem seen_set_never_shrinks (self : MyPlugin) (ops : list operation) :
  seen_article_ids self ⊆ seen_article_ids (exec (perform_all ops) self).
Proof.
  apply (perform_all_invariant
           (λ s, seen_article_ids self ⊆ seen_article_ids s)).
  - by intros s e Hsub.
  - intros s outcome api_url Hsub. etrans; [exact Hsub|].
    apply after_fetch_seen_mono.
  - by intros s Hsub.
  - intros s event Hsub. by rewrite register_exec.
  - by intros s group_id Hsub.
  - done.
Qed.

Lemma after_fetch_same_memory (s1 s2 : MyPlugin) (outcome : http_outcome)
    (api1 api2 : string) :
  same_memory s1 s2 →
  same_memory (after_fetch s1 outcome api1) (after_fetch s2 outcome api2).
Proof.
  intros (Hcfg & Hflag & Hseen & Hgroups). unfold same_memory. simpl.
  by rewrite Hseen.
Qed.

Lemma checked_same_memory (s1 s2 : MyPlugin) (b r : http_outcome) :
  same_memory s1 s2 →
  same_memory (release_checked (beta_checked s1 b) r)
    (release_checked (beta_checked s2 b) r).
Proof.
  intros Hsame. pose proof Hsame as (Hcfg & _).
  unfold release_checked. rewrite !beta_checked_config, Hcfg.
  assert (Hbeta : same_memory (beta_checked s1 b) (beta_checked s2 b)).
  { unfold beta_checked. rewrite Hcfg.
    destruct (config_get _); [by apply after_fetch_same_memory|done]. }
  destruct (config_get _); [by apply after_fetch_same_memory|done].
Qed.

Lemma cycle_result_same_memory (s1 s2 : MyPlugin) (b r : http_outcome) :
  same_memory s1 s2 → cycle_result s1 b r = cycle_result s2 b r.
Proof.
  intros Hsame. pose proof Hsame as (Hcfg & Hflag & Hseen & _).
  unfold cycle_result, beta_result, release_result, fetch_result.
  rewrite !beta_checked_config, !beta_checked_first_run, Hcfg, Hflag, Hseen.
  f_equal. destruct (config_get _); [|done].
  destruct (fetched r); [|done]. f_equal.
  unfold beta_checked. rewrite Hcfg. destruct (config_get _); [|done].
  simpl. by rewrite Hseen.
Qed.

Lemma perform_same_memory (op : operation) (s1 s2 : MyPlugin) :
  same_memory s1 s2 →
  same_memory (exec (perform op) s1) (exec (perform op) s2).
Proof.
  intros Hsame.
  assert (Hcycle : ∀ t1 t2 b r, same_memory t1 t2 →
            same_memory (exec (_check_updates b r) t1) (exec (_check_updates b r) t2)).
  { intros t1 t2 b r Ht. rewrite !check_updates_exec.
    destruct (checked_same_memory t1 t2 b r Ht) as (? & ? & ? & ?).
    by repeat split. }
  assert (Hemit : ∀ t1 t2 e, same_memory t1 t2 →
            same_memory (exec (emit e) t1) (exec (emit e) t2)).
  { by intros t1 t2 e (? & ? & ? & ?). }
  destruct op as [b r|b r|event|event|]; cbn [perform].
  - rewrite !exec_bind. by apply Hcycle.
  - unfold mcbe_check. rewrite !exec_bind. by apply Hemit, Hcycle, Hemit.
  - rewrite !register_exec. destruct Hsame as (? & ? & ? & Hgroups).
    repeat split; try done. simpl. by rewrite Hgroups.
  - rewrite !unregister_exec. pose proof Hsame as (? & ? & ? & Hgroups).
    rewrite Hgroups. destruct (find_origin _ _); [|by apply Hemit].
    repeat split; try done. simpl. by rewrite Hgroups.
  - by apply Hemit.
Qed.

(** X4. What the plugin object holds and what a cycle reports never depend on
    the files or on whether writing them succeeds: two plugin objects
    with the same attributes stay so through the same operations, and
    their next cycle reports the same articles.  A write that fails is
    not noticed in memory. *)
Theorem memory_does_not_depend_on_disk
    (s1 s2 : MyPlugin) (ops : list operation) (b r : http_outcome) :
  same_memory s1 s2 →
  same_memory (exec (perform_all ops) s1) (exec (perform_all ops) s2)
  ∧ eval (_check_updates b r) (exec (perform_all ops) s1)
    = eval (_check_updates b r) (exec (perform_all ops) s2).
Proof.
  intros Hsame.
  assert (Hafter : same_memory (exec (perform_all ops) s1)
                     (exec (perform_all ops) s2)).
  { revert s1 s2 Hsame. induction ops as [|op rest IH]; intros s1 s2 Hsame; [done|].
    cbn [perform_all]. rewrite !exec_bind. by apply IH, perform_same_memory. }
  split; [done|]. rewrite !check_updates_eval. by apply cycle_result_same_memory.
Qed.

Lemma memory_does_not_depend_on_disk_example :
  let beta := Response 200 (Some (sample_page [6; 3])) in
  let release := Response 200 (Some (sample_page [5; 4])) in
  let writable := __init__ default_config Missing Missing WriteOk in
  let readonly := __init__ default_config Missing Missing OpenRaises in
  seen_articles_file (exec (perform_all [ScheduledCheck beta release]) readonly)
  = Missing
  ∧ seen_article_ids (exec (perform_all [ScheduledCheck beta release]) readonly)
    = seen_article_ids (exec (perform_all [ScheduledCheck beta release]) writable)
  ∧ eval (_check_updates beta release)
      (exec (perform_all [ScheduledCheck beta release]) readonly)
    = [].
Proof.
  intros beta release writable readonly.
  assert (Hsame : same_memory readonly writable) by done.
  destruct (memory_does_not_depend_on_disk readonly writable
              [ScheduledCheck beta release] beta release Hsame)
    as [(_ & _ & Hseen & _) Hreport].
  split; [reflexivity|]. split; [exact Hseen|].
  etrans; [exact Hreport|]. reflexivity.
Defined.

(** ** More on the cycle *)

Lemma unseen_spec (articles : list Article.t) (seen : gset Z) :
  NoDup (Article.id <$> unseen articles seen)
  ∧ ∀ article, article ∈ unseen articles seen →
      (Article.id article ∉ seen) ∧ article ∈ articles.
Proof.
  revert seen. induction articles as [|a rest IH]; intros seen; simpl.
  - split; [apply NoDup_nil_2|]. by intros article ?%elem_of_nil.
  - destruct (decide (Article.id a ∈ seen)) as [Hin|Hin].
    + destruct (IH seen) as [Hnd Hall]. split; [done|].
      intros article Harticle. destruct (Hall article Harticle). split; [done|].
      by right.
    + destruct (IH ({[Article.id a]} ∪ seen)) as [Hnd Hall]. split.
      * rewrite fmap_cons. apply NoDup_cons. split; [|done].
        intros (article & Hid & Harticle)%list_elem_of_fmap.
        destruct (Hall article Harticle) as [Hfresh _]. set_solver.
      * intros article [->|Harticle]%elem_of_cons; [split; [done|left]|].
        destruct (Hall article Harticle) as [Hfresh ?].
        split; [set_solver|by right].
Qed.

Lemma tagged_ids (version_type : string) (articles : list Article.t) :
  (λ p : Article.t * string, Article.id p.1) <$> tagged version_type articles
  = Article.id <$> articles.
Proof. unfold tagged. rewrite <- list_fmap_compose. done. Qed.

Lemma elem_of_tagged (version_type : string) (articles : list Article.t)
    (p : Article.t * string) :
  p ∈ tagged version_type articles ↔ p.1 ∈ articles ∧ p.2 = version_type.
Proof.
  unfold tagged. rewrite list_elem_of_fmap. split.
  - by intros (a & -> & Ha).
  - intros [Ha Hv]. exists p.1. split; [|done]. destruct p. simpl in *. by subst.
Qed.

(** What a normal-mode feed check reports: ids that were not seen, each
    once, all of them seen afterwards. *)
Lemma fetch_result_normal (self : MyPlugin) (outcome : http_outcome)
    (api_url version_type : string) :
  is_first_run self = false →
  NoDup ((λ p : Article.t * string, Article.id p.1)
           <$> fetch_result self outcome version_type)
  ∧ ∀ p, p ∈ fetch_result self outcome version_type →
      (Article.id p.1 ∉ seen_article_ids self)
      ∧ Article.id p.1 ∈ seen_article_ids (after_fetch self outcome api_url).
Proof.
  intros Hmode. unfold fetch_result, reported. rewrite Hmode. simpl.
  destruct (fetched outcome) as [data|].
  - destruct (unseen_spec (ArticleListResponse.articles data) (seen_article_ids self))
      as [Hnd Hall].
    rewrite tagged_ids. split; [done|].
    intros p [Hp _]%elem_of_tagged. destruct (Hall _ Hp) as [Hfresh Hin].
    split; [done|]. apply elem_of_union_r, elem_of_page_ids. eauto.
  - split; [apply NoDup_nil_2|]. by intros p ?%elem_of_nil.
Qed.

(** X5. In normal mode a cycle reports no id that was in the seen-set and no
    id twice, also when a page repeats an id or both feeds list the same
    article; every id it reports is in the seen-set afterwards. *)
Theorem normal_cycle_reports_each_new_id_once
    (self : MyPlugin) (beta_outcome release_outcome : http_outcome) :
  is_first_run self = false →
  let cycle := _check_updates beta_outcome release_outcome in
  NoDup ((λ p : Article.t * string, Article.id p.1) <$> eval cycle self)
  ∧ ∀ p, p ∈ eval cycle self →
      (Article.id p.1 ∉ seen_article_ids self)
      ∧ Article.id p.1 ∈ seen_article_ids (exec cycle self).
Proof.
  intros Hmode cycle. subst cycle.
  rewrite check_updates_eval, check_updates_exec.
  cbn [after_cycle seen_article_ids].
  unfold cycle_result, beta_result, release_result, release_checked.
  rewrite beta_checked_config.
  set (s1 := beta_checked self beta_outcome).
  assert (Hmode1 : is_first_run s1 = false)
    by (subst s1; by rewrite beta_checked_first_run).
  assert (Hbeta : NoDup ((λ p : Article.t * string, Article.id p.1)
                    <$> (if config_get (enable_beta_monitor (config self))
                         then fetch_result self beta_outcome "Beta" else []))
            ∧ ∀ p, p ∈ (if config_get (enable_beta_monitor (config self))
                        then fetch_result self beta_outcome "Beta" else []) →
                (Article.id p.1 ∉ seen_article_ids self)
                ∧ Article.id p.1 ∈ seen_article_ids s1).
  { subst s1. unfold beta_checked. destruct (config_get _).
    - by apply fetch_result_normal.
    - split; [apply NoDup_nil_2|]. by intros p ?%elem_of_nil. }
  destruct Hbeta as [Hnd_b Hall_b].
  destruct (config_get (enable_release_monitor (config self))).
  - destruct (fetch_result_normal s1 release_outcome bedrock_news_api "Release" Hmode1)
      as [Hnd_r Hall_r].
    split.
    + rewrite fmap_app. apply NoDup_app. split; [done|]. split; [|done].
      intros i (p & -> & Hp)%list_elem_of_fmap (q & Hq & Hqin)%list_elem_of_fmap.
      destruct (Hall_b p Hp) as [_ Hseen]. destruct (Hall_r q Hqin) as [Hfresh _].
      apply Hfresh. by rewrite <- Hq.
    + intros p [Hp|Hp]%elem_of_app.
      * destruct (Hall_b p Hp) as [Hfresh Hseen]. split; [done|].
        by apply after_fetch_seen_mono.
      * destruct (Hall_r p Hp) as [Hfresh Hseen]. split; [|done].
        intros Hin. apply Hfresh. subst s1.
        by apply beta_checked_seen_mono.
  - rewrite app_nil_r. done.
Qed.

Lemma normal_cycle_reports_each_new_id_once_example :
  let self := __init__ default_config (Stored [4]) Missing WriteOk in
  let beta := Response 200 (Some (sample_page [6; 6; 5; 4])) in
  let release := Response 200 (Some (sample_page [7; 6; 5])) in
  eval (_check_updates beta release) self
  = [(sample_article 6, "Beta"); (sample_article 5, "Beta");
     (sample_article 7, "Release")]
  ∧ NoDup ((λ p : Article.t * string, Article.id p.1)
             <$> eval (_check_updates beta release) self).
Proof.
  intros self beta release. split; [reflexivity|].
  exact (proj1 (normal_cycle_reports_each_new_id_once self beta release eq_refl)).
Defined.

(** X6. In the cycle run under the first-run flag, each enabled feed reports at
    most one article, the first of its page, whatever the seen-set holds:
    the cycle reports at most two articles. *)
Theorem first_cycle_reports_at_most_the_newest_of_each_feed
    (self : MyPlugin) (beta_outcome release_outcome : http_outcome) :
  is_first_run self = true →
  let new_articles := eval (_check_updates beta_outcome release_outcome) self in
  (List.length new_articles ≤ 2)%nat
  ∧ ∀ p, p ∈ new_articles →
      (p.2 = "Beta"
       ∧ ∃ data, fetched beta_outcome = Some data
                 ∧ head (ArticleListResponse.articles data) = Some p.1)
      ∨ (p.2 = "Release"
         ∧ ∃ data, fetched release_outcome = Some data
                   ∧ head (ArticleListResponse.articles data) = Some p.1).
Proof.
  intros Hmode new_articles. subst new_articles. rewrite check_updates_eval.
  unfold cycle_result, beta_result, release_result, fetch_result, reported.
  rewrite beta_checked_config, beta_checked_first_run, Hmode.
  assert (Hone : ∀ version_type outcome p,
            p ∈ match fetched outcome with
                | Some data =>
                    tagged version_type (take 1 (ArticleListResponse.articles data))
                | None => []
                end →
            p.2 = version_type
            ∧ ∃ data, fetched outcome = Some data
                      ∧ head (ArticleListResponse.articles data) = Some p.1).
  { intros version_type outcome p. destruct (fetched outcome) as [data|].
    - intros [Hp Hv]%elem_of_tagged. split; [done|]. exists data. split; [done|].
      destruct (ArticleListResponse.articles data) as [|a rest]; simpl in *.
      + by apply elem_of_nil in Hp.
      + by apply list_elem_of_singleton in Hp as ->.
    - by intros ?%elem_of_nil. }
  assert (Hlen : ∀ version_type outcome,
            (List.length
               match fetched outcome with
               | Some data =>
                   tagged version_type (take 1 (ArticleListResponse.articles data))
               | None => []
               end ≤ 1)%nat).
  { intros version_type outcome. destruct (fetched outcome) as [data|]; simpl; [|lia].
    unfold tagged. rewrite length_fmap, length_take. lia. }
  split.
  - rewrite length_app.
    pose proof (Hlen "Beta" beta_outcome). pose proof (Hlen "Release" release_outcome).
    destruct (config_get _), (config_get _); simpl; lia.
  - intros p [Hp|Hp]%elem_of_app.
    + left. destruct (config_get _); [by apply Hone|by apply elem_of_nil in Hp].
    + right. destruct (config_get (enable_release_monitor _));
        [by apply Hone|by apply elem_of_nil in Hp].
Qed.

Lemma first_cycle_reports_at_most_the_newest_of_each_feed_example :
  let self := __init__ default_config Missing Missing WriteOk in
  let beta := Response 200 (Some (sample_page [6; 3])) in
  let release := Response 200 (Some (sample_page [6; 4])) in
  eval (_check_updates beta release) self
  = [(sample_article 6, "Beta"); (sample_article 6, "Release")]
  ∧ (List.length (eval (_check_updates beta release) self) ≤ 2)%nat.
Proof.
  intros self beta release. split; [reflexivity|].
  exact (proj1 (first_cycle_reports_at_most_the_newest_of_each_feed
                  self beta release eq_refl)).
Defined.

(** X7. The first-run flag is used up by the first cycle even when that cycle
    fetches no page (every enabled feed fails, or no feed is enabled):
    the flag is cleared while the seen-set is still as it was and the
    seen-ids file is untouched, so the next successful check runs in
    normal mode and reports every unseen article of the page, not only
    the newest. *)
Theorem idle_first_cycle_uses_up_first_run
    (self : MyPlugin) (beta_outcome release_outcome : http_outcome)
    (status : Z) (data : ArticleListResponse.t) (api_url version_type : string) :
  is_first_run self = true →
  (config_get (enable_beta_monitor (config self)) = true →
   fetch_failure beta_outcome) →
  (config_get (enable_release_monitor (config self)) = true →
   fetch_failure release_outcome) →
  is_success status = true →
  let cycle := _check_updates beta_outcome release_outcome in
  eval cycle self = []
  ∧ is_first_run (exec cycle self) = false
  ∧ seen_article_ids (exec cycle self) = seen_article_ids self
  ∧ seen_articles_file (exec cycle self) = seen_articles_file self
  ∧ eval (_fetch_articles (Response status (Some data)) api_url version_type)
      (exec cycle self)
    = tagged version_type
        (unseen (ArticleListResponse.articles data) (seen_article_ids self)).
Proof.
  intros Hmode Hbeta Hrelease Hok cycle. subst cycle.
  rewrite fetch_eval, check_updates_eval, check_updates_exec.
  assert (Hchecked :
    seen_article_ids (release_checked (beta_checked self beta_outcome) release_outcome)
    = seen_article_ids self
    ∧ seen_articles_file
        (release_checked (beta_checked self beta_outcome) release_outcome)
      = seen_articles_file self).
  { unfold release_checked. rewrite beta_checked_config. unfold beta_checked.
    destruct (config_get (enable_beta_monitor _));
      destruct (config_get (enable_release_monitor _)); simpl;
      rewrite ?(proj1 (fetch_failure_fetched _) (Hbeta eq_refl)),
        ?(proj1 (fetch_failure_fetched _) (Hrelease eq_refl)); done. }
  destruct Hchecked as [Hseen Hfile].
  split; [|split; [done|split; [done|split; [done|]]]].
  - unfold cycle_result, beta_result, release_result, fetch_result.
    rewrite beta_checked_config.
    destruct (config_get (enable_beta_monitor _));
      destruct (config_get (enable_release_monitor _)); simpl;
      rewrite ?(proj1 (fetch_failure_fetched _) (Hbeta eq_refl)),
        ?(proj1 (fetch_failure_fetched _) (Hrelease eq_refl)); done.
  - unfold fetch_result, reported. cbn [after_cycle is_first_run seen_article_ids].
    rewrite fetched_success by done. by rewrite Hseen.
Qed.

Lemma idle_first_cycle_uses_up_first_run_example :
  let self := __init__ default_config Missing Missing WriteOk in
  let cycle := _check_updates RequestError (Response 404 None) in
  is_first_run (exec cycle self) = false
  ∧ seen_articles_file (exec cycle self) = Missing
  ∧ eval (_fetch_articles (Response 200 (Some (sample_page [9; 8; 7])))
            bedrock_news_api "Release") (exec cycle self)
    = [(sample_article 9, "Release"); (sample_article 8, "Release");
       (sample_article 7, "Release")].
Proof.
  intros self cycle.
  destruct (idle_first_cycle_uses_up_first_run self RequestError (Response 404 None)
              200 (sample_page [9; 8; 7]) bedrock_news_api "Release" eq_refl
              (λ _, network_error) (λ _, bad_status 404 None eq_refl) eq_refl)
    as (_ & Hflag & _ & Hfile & Hnext).
  split; [exact Hflag|]. split; [exact Hfile|].
  etrans; [exact Hnext|]. reflexivity.
Defined.

Lemma fetch_effects_no_process (self : MyPlugin) (outcome : http_outcome)
    (api_url : string) :
  Forall (λ e, is_process e = false) (fetch_effects self outcome api_url).
Proof.
  unfold fetch_effects. destruct (fetched outcome); [destruct (saves _ _ _)|];
    repeat constructor.
Qed.

Lemma checked_trace_no_process (b r : http_outcome) (self : MyPlugin) :
  ∃ checks,
    trace (release_checked (beta_checked self b) r) = trace self ++ checks
    ∧ Forall (λ e, is_process e = false) checks.
Proof.
  unfold release_checked, beta_checked.
  destruct (config_get (enable_beta_monitor (config self)));
    destruct (config_get (enable_release_monitor _)); cbn [after_fetch trace].
  - exists (fetch_effects self b bedrock_beta_news_api
            ++ fetch_effects (after_fetch self b bedrock_beta_news_api) r
                 bedrock_news_api).
    split; [by rewrite app_assoc|].
    apply Forall_app. split; apply fetch_effects_no_process.
  - exists (fetch_effects self b bedrock_beta_news_api).
    split; [done|apply fetch_effects_no_process].
  - exists (fetch_effects self r bedrock_news_api).
    split; [done|apply fetch_effects_no_process].
  - exists []. split; [by rewrite app_nil_r|constructor].
Qed.

(** X8. A cycle hands its new articles to [_process_new_articles] exactly when
    there are some: once, as the last thing it does, and with the very
    list it collected; a cycle that found nothing delivers nothing. *)
Theorem cycle_hands_over_new_articles_once
    (self : MyPlugin) (beta_outcome release_outcome : http_outcome) :
  let cycle := _check_updates beta_outcome release_outcome in
  List.filter is_process (effects_of cycle self)
  = match eval cycle self with
    | [] => []
    | _ :: _ => [ProcessNewArticles (eval cycle self)]
    end
  ∧ (eval cycle self ≠ [] →
     last (effects_of cycle self) = Some (ProcessNewArticles (eval cycle self))).
Proof.
  intros cycle. subst cycle. rewrite check_updates_eval.
  destruct (checked_trace_no_process beta_outcome release_outcome self)
    as (checks & Htrace & Hchecks).
  assert (Heffects : effects_of (_check_updates beta_outcome release_outcome) self
            = checks ++ cycle_tail (is_first_run self)
                          (cycle_result self beta_outcome release_outcome)).
  { unfold effects_of. rewrite check_updates_exec. cbn [after_cycle trace].
    rewrite Htrace, <- app_assoc. by rewrite drop_app_length. }
  rewrite Heffects. split.
  - rewrite List.filter_app, filter_none by done. unfold cycle_tail.
    destruct (is_first_run self), (cycle_result _ _ _); done.
  - intros Hsome. unfold cycle_tail.
    destruct (cycle_result _ _ _) as [|p rest]; [done|].
    rewrite !app_assoc. by rewrite last_snoc.
Qed.

Lemma cycle_hands_over_new_articles_once_example :
  let self := __init__ default_config (Stored [4]) Missing WriteOk in
  let cycle :=
    _check_updates RequestError (Response 200 (Some (sample_page [5; 4]))) in
  last (effects_of cycle self)
  = Some (ProcessNewArticles [(sample_article 5, "Release")]).
Proof.
  intros self cycle.
  destruct (cycle_hands_over_new_articles_once self RequestError
              (Response 200 (Some (sample_page [5; 4])))) as [_ Hlast].
  etrans; [apply Hlast; discriminate|]. reflexivity.
Defined.

(** ** More on image extraction *)

(** Below a node of a document there is nothing that is not in the
    document. *)
Lemma descendants_trans :
  ∀ t x y : Tag, x ∈ descendants t → y ∈ descendants x → y ∈ descendants t.
Proof.
  fix IH 1. intros [name attrs contents|text] x y Hx Hy.
  - simpl in *. induction contents as [|child rest IHrest]; simpl in *.
    + by apply elem_of_nil in Hx.
    + apply elem_of_cons in Hx as [->|Hx].
      * right. apply elem_of_app. by left.
      * apply elem_of_app in Hx as [Hx|Hx].
        -- right. apply elem_of_app. left. by apply (IH child x y).
        -- right. apply elem_of_app. right. by apply IHrest.
  - by apply elem_of_nil in Hx.
Qed.

Lemma elem_of_find_all (names : list string) (t x : Tag) :
  x ∈ find_all names t ↔ x ∈ descendants t ∧ is_named names x = true.
Proof. unfold find_all. by rewrite list_elem_of_In, filter_In, <- list_elem_of_In. Qed.

Lemma find_some (name : string) (t x : Tag) :
  find name t = Some x → x ∈ find_all [name] t.
Proof.
  unfold find. destruct (find_all [name] t) as [|first rest]; [done|].
  intros [= ->]. left.
Qed.

(** Every source the loop looks at is the [src] of an [<img>] of the
    document. *)
Lemma candidate_is_img_source (soup element : Tag) (src : string) :
  element ∈ find_all ["figure"; "img"] soup →
  candidate element = Some src →
  src ∈ img_sources soup.
Proof.
  intros [Hin Hnamed]%elem_of_find_all Hcand.
  destruct element as [name attrs contents|text]; [|done].
  unfold candidate in Hcand. unfold img_sources. apply list_elem_of_fmap.
  destruct (decide (name = "figure")) as [->|Hfig].
  - destruct (find "img" _) as [img|] eqn:Hfind; [|done].
    injection Hcand as <-. exists img. split; [done|].
    apply find_some, elem_of_find_all in Hfind as [Himg Hname].
    apply elem_of_find_all. split; [|done]. by eapply descendants_trans.
  - destruct (decide (name = "img")) as [->|Himg]; [|done].
    injection Hcand as <-. exists (Element "img" attrs contents).
    split; [done|]. by apply elem_of_find_all.
Qed.

Lemma loop_sound (accepted : string → bool) (elements : list Tag) (st : extraction)
    (u : string) :
  u ∈ image_urls (components (extract_loop accepted elements st)) →
  u ∈ image_urls (components st)
  ∨ ∃ element src,
      element ∈ elements ∧ candidate element = Some src
      ∧ truthy src = true ∧ accepted u = true ∧ u = resolve src.
Proof.
  revert st. induction elements as [|element rest IH]; intros st Hu; [by left|].
  simpl in Hu. apply IH in Hu as [Hu|(e & src & He & Hrest)].
  - destruct (visit_cases accepted st element)
      as [Hsame|(src & Hcand & Htruthy & _ & _ & Hacc & Hadd)].
    + rewrite Hsame in Hu. by left.
    + rewrite Hadd, add_image_accepted in Hu by done. simpl in Hu.
      rewrite image_urls_app in Hu. apply elem_of_app in Hu as [Hu|Hu]; [by left|].
      apply list_elem_of_singleton in Hu as ->. right.
      exists element, src. split; [left|done].
  - right. exists e, src. split; [by right|done].
Qed.

Lemma extraction_shape (accepted : string → bool) (soup : Tag) :
  _extract_content_with_images accepted soup
  = flat_map (λ u, [Image u; Plain newline])
      (image_urls (_extract_content_with_images accepted soup)).
Proof. unfold _extract_content_with_images. by apply loop_shape. Qed.

(** X9. For every body the extraction emits at most ten images, and the
    component list is exactly these images, each followed by one line
    break. *)
Theorem extraction_never_exceeds_the_cap (accepted : string → bool) (soup : Tag) :
  let emitted := _extract_content_with_images accepted soup in
  (List.length (image_urls emitted) ≤ 10)%nat
  ∧ emitted = flat_map (λ u, [Image u; Plain newline]) (image_urls emitted)
  ∧ List.length emitted = (2 * List.length (image_urls emitted))%nat.
Proof.
  intros emitted. subst emitted. unfold _extract_content_with_images.
  set (final := extract_loop accepted (find_all ["figure"; "img"] soup)
                  extraction_start).
  destruct (loop_consistent accepted (find_all ["figure"; "img"] soup) _
              extraction_start_consistent) as (Hcount & Hcap & _).
  fold final in Hcount, Hcap.
  assert (Hshape : components final
            = flat_map (λ u, [Image u; Plain newline]) (image_urls (components final))).
  { subst final. by apply loop_shape. }
  split; [unfold max_images in Hcap; lia|]. split; [done|].
  rewrite Hshape at 1. generalize (image_urls (components final)).
  intros urls. induction urls as [|u rest IH]; simpl; [done|]. rewrite IH. lia.
Qed.

(** X10. Every image emitted is the resolution of the non-empty [src] of an
    [<img>] of the document, was accepted by the host's constructor, and
    does not start with a slash; a document without [<img>] elements
    gives no component at all. *)
Theorem extraction_emits_only_document_images (accepted : string → bool) (soup : Tag) :
  let emitted := _extract_content_with_images accepted soup in
  (∀ u, u ∈ image_urls emitted →
     ∃ src, src ∈ img_sources soup ∧ truthy src = true ∧ u = resolve src
            ∧ accepted u = true ∧ startswith_slash u = false)
  ∧ (img_sources soup = [] → emitted = []).
Proof.
  intros emitted.
  assert (Hsound : ∀ u, u ∈ image_urls emitted →
     ∃ src, src ∈ img_sources soup ∧ truthy src = true ∧ u = resolve src
            ∧ accepted u = true ∧ startswith_slash u = false).
  { intros u Hu. subst emitted. unfold _extract_content_with_images in Hu.
    apply loop_sound in Hu as [Hu|(element & src & Hin & Hcand & Htruthy & Hacc & ->)].
    - by apply elem_of_nil in Hu.
    - exists src. split; [by eapply candidate_is_img_source|].
      split; [done|]. split; [done|]. split; [done|apply resolve_absolute]. }
  split; [done|]. intros Hnone.
  pose proof (extraction_shape accepted soup) as Hshape.
  fold emitted in Hshape. rewrite Hshape.
  destruct (image_urls emitted) as [|u rest]; [done|].
  destruct (Hsound u) as (src & Hsrc & _); [left|].
  rewrite Hnone in Hsrc. by apply elem_of_nil in Hsrc.
Qed.

Lemma extraction_emits_only_document_images_example :
  _extract_content_with_images accept_http
    (document [figure [NavigableString "no picture here"]; NavigableString "text"])
  = [].
Proof.
  apply (extraction_emits_only_document_images accept_http). reflexivity.
Defined.

(** X11. Nothing is dropped below the cap: when fewer than ten images were
    emitted, the image of every non-empty source of an [<img>] of the
    document that the host accepts is among them. *)
Theorem extraction_below_cap_drops_nothing (accepted : string → bool) (soup : Tag)
    (src : string) :
  let emitted := _extract_content_with_images accepted soup in
  (List.length (image_urls emitted) < 10)%nat →
  src ∈ img_sources soup →
  truthy src = true →
  accepted (resolve src) = true →
  resolve src ∈ image_urls emitted.
Proof.
  intros emitted Hroom Hsrc Htruthy Hacc. subst emitted.
  unfold _extract_content_with_images in *.
  unfold img_sources in Hsrc. apply list_elem_of_fmap in Hsrc
    as (element & -> & [Hvisited Himg]%img_is_visited).
  destruct (loop_consistent accepted (find_all ["figure"; "img"] soup) _
              extraction_start_consistent) as (Hcount & _ & _).
  apply loop_emits;
    [apply extraction_start_consistent|done|done|done|done|].
  rewrite Hcount. unfold max_images. lia.
Qed.

Lemma extraction_below_cap_drops_nothing_example :
  "https://feedback.minecraft.net/hc/b.png"
  ∈ image_urls
      (_extract_content_with_images accept_http
         (document [figure [img "https://cdn.example/a.png"; img "/hc/b.png"];
                    img "ftp://cdn.example/c.png"; img EmptyString])).
Proof.
  apply (extraction_below_cap_drops_nothing accept_http
           (document [figure [img "https://cdn.example/a.png"; img "/hc/b.png"];
                      img "ftp://cdn.example/c.png"; img EmptyString])
           "/hc/b.png").
  - vm_compute. lia.
  - vm_compute. right. left.
  - reflexivity.
  - reflexivity.
Defined.

(** X12. When no [<img>] of the document has a source starting with a slash,
    no URL is emitted twice. *)
Theorem extraction_of_absolute_sources_has_no_duplicate
    (accepted : string → bool) (soup : Tag) :
  Forall (λ src, startswith_slash src = false) (img_sources soup) →
  NoDup (image_urls (_extract_content_with_images accepted soup)).
Proof.
  intros Habs. apply absolute_sources_emitted_once.
  apply Forall_forall. intros src Hsrc.
  unfold candidates in Hsrc. apply list_elem_of_omap in Hsrc
    as (element & Hin & Hcand).
  rewrite Forall_forall in Habs. apply Habs.
  by eapply candidate_is_img_source.
Qed.

Lemma extraction_of_absolute_sources_has_no_duplicate_example :
  NoDup (image_urls
           (_extract_content_with_images accept_http
              (document [figure [img "https://cdn.example/a.png"];
                         img "https://cdn.example/b.png";
                         img "https://cdn.example/a.png"]))).
Proof.
  apply extraction_of_absolute_sources_has_no_duplicate.
  vm_compute. repeat constructor.
Defined.

(** ** More on the registry *)

Lemma dict_get_set_eq (k v : string) (d : dict) : dict_get k (dict_set k v d) = Some v.
Proof.
  induction d as [|[k' v'] rest IH]; simpl; [by rewrite decide_True|].
  destruct (decide (k' = k)) as [->|Hne]; simpl.
  - by rewrite decide_True.
  - by rewrite decide_False.
Qed.

Lemma dict_get_set_ne (k k' v : string) (d : dict) :
  k' ≠ k → dict_get k' (dict_set k v d) = dict_get k' d.
Proof.
  intros Hne. induction d as [|[k0 v0] rest IH]; simpl.
  - by rewrite decide_False.
  - destruct (decide (k0 = k)) as [->|Hk]; simpl.
    + by rewrite !decide_False.
    + destruct (decide (k0 = k')); [done|exact IH].
Qed.

Lemma dict_set_idem (k v : string) (d : dict) :
  dict_set k v (dict_set k v d) = dict_set k v d.
Proof.
  induction d as [|[k' v'] rest IH]; simpl; [by rewrite decide_True|].
  destruct (decide (k' = k)) as [->|Hne]; simpl.
  - by rewrite decide_True.
  - rewrite decide_False by done. by rewrite IH.
Qed.

Lemma dict_set_length (k v : string) (d : dict) :
  List.length (dict_set k v d)
  = if decide (k ∈ dict_keys d) then List.length d else S (List.length d).
Proof.
  pose proof (f_equal List.length (dict_set_keys k v d)) as Hlen.
  unfold dict_keys in *. rewrite length_fmap in Hlen. rewrite Hlen.
  destruct (decide _); [by rewrite length_fmap|].
  rewrite length_app, length_fmap. simpl. lia.
Qed.

Lemma dict_get_none (k : string) (d : dict) :
  k ∉ dict_keys d → dict_get k d = None.
Proof.
  unfold dict_keys. induction d as [|[k' v'] rest IH]; [done|].
  rewrite fmap_cons. intros [Hne Hrest]%not_elem_of_cons. simpl.
  rewrite decide_False by done. by apply IH.
Qed.

Lemma dict_get_del_eq (k : string) (d : dict) :
  NoDup (dict_keys d) → dict_get k (dict_del k d) = None.
Proof.
  unfold dict_keys. induction d as [|[k' v'] rest IH]; [done|].
  rewrite fmap_cons. intros [Hfresh Hnd]%NoDup_cons. simpl.
  destruct (decide (k' = k)) as [->|Hne].
  - by apply dict_get_none.
  - simpl. rewrite decide_False by done. by apply IH.
Qed.

Lemma dict_get_del_ne (k k' : string) (d : dict) :
  k' ≠ k → dict_get k' (dict_del k d) = dict_get k' d.
Proof.
  intros Hne. induction d as [|[k0 v0] rest IH]; [done|]. simpl.
  destruct (decide (k0 = k)) as [->|Hk]; simpl.
  - by rewrite decide_False.
  - destruct (decide (k0 = k')); [done|exact IH].
Qed.

Lemma dict_del_NoDup (k : string) (d : dict) :
  NoDup (dict_keys d) → NoDup (dict_keys (dict_del k d)).
Proof.
  unfold dict_keys. induction d as [|[k' v'] rest IH]; [done|].
  rewrite fmap_cons. intros [Hfresh Hnd]%NoDup_cons. simpl.
  destruct (decide (k' = k)); [done|]. rewrite fmap_cons. apply NoDup_cons.
  split; [|by apply IH]. intros (entry & Hk & Hin)%list_elem_of_fmap.
  apply Hfresh. apply list_elem_of_fmap. exists entry. split; [done|].
  clear -Hin. induction rest as [|[k0 v0] rest IHrest]; [done|]. simpl in Hin.
  destruct (decide (k0 = k)); [by right|].
  apply elem_of_cons in Hin as [->|Hin]; [left|right; by apply IHrest].
Qed.

Lemma find_origin_key (d : dict) (origin k : string) :
  find_origin d origin = Some k → k ∈ dict_keys d.
Proof.
  intros (before & rest & -> & _)%find_origin_some.
  unfold dict_keys. rewrite fmap_app, fmap_cons. apply elem_of_app. right. left.
Qed.

Lemma dict_del_length (k : string) (d : dict) :
  k ∈ dict_keys d → S (List.length (dict_del k d)) = List.length d.
Proof.
  unfold dict_keys. induction d as [|[k' v'] rest IH].
  - by intros ?%elem_of_nil.
  - rewrite fmap_cons. simpl. destruct (decide (k' = k)) as [->|Hne]; [done|].
    intros [->|Hin]%elem_of_cons; [done|]. simpl. by rewrite IH.
Qed.

(** X13. Registering writes the chat's address under its key and touches no
    other key: a key already present is overwritten in place, a new one
    adds one entry; keys stay distinct, and registering again changes
    nothing.  When the write succeeds the registry file holds the new
    registry. *)
Theorem register_upserts_one_key (self : MyPlugin) (event : AstrMessageEvent)
    (other : string) :
  NoDup (dict_keys (registered_groups self)) →
  other ≠ registration_key event →
  let key := registration_key event in
  let registered := exec (mcbe_register event) self in
  dict_get key (registered_groups registered) = Some (unified_msg_origin event)
  ∧ dict_get other (registered_groups registered)
    = dict_get other (registered_groups self)
  ∧ NoDup (dict_keys (registered_groups registered))
  ∧ List.length (registered_groups registered)
    = (if decide (key ∈ dict_keys (registered_groups self))
       then List.length (registered_groups self)
       else S (List.length (registered_groups self)))
  ∧ registered_groups (exec (mcbe_register event) registered)
    = registered_groups registered
  ∧ (disk_writable self = true →
     registered_groups_file registered = Stored (registered_groups registered)).
Proof.
  intros Hnd Hother key registered. subst registered.
  rewrite !register_exec. cbn [registered_groups registered_groups_file].
  fold key. split; [apply dict_get_set_eq|]. split; [by apply dict_get_set_ne|].
  split; [by apply dict_set_NoDup|]. split; [apply dict_set_length|].
  split; [apply dict_set_idem|]. intros Hdisk%disk_writable_ok.
  by rewrite Hdisk.
Qed.

Lemma register_upserts_one_key_example :
  let self :=
    __init__ default_config Missing
      (Stored [("111", "qq:GroupMessage:111"); ("333", "old:address")]) WriteOk in
  let event := {| unified_msg_origin := "qq:group:333"; group_id := None |} in
  registered_groups (exec (mcbe_register event) self)
  = [("111", "qq:GroupMessage:111"); ("333", "qq:group:333")]
  ∧ dict_get "111" (registered_groups (exec (mcbe_register event) self))
    = Some "qq:GroupMessage:111".
Proof.
  intros self event. split; [reflexivity|].
  assert (Hnd : NoDup (dict_keys (registered_groups self))).
  { simpl. apply NoDup_cons. split; [|apply NoDup_singleton].
    intros H%list_elem_of_singleton. discriminate H. }
  assert (Hother : "111" ≠ registration_key event) by discriminate.
  destruct (register_upserts_one_key self event "111" Hnd Hother)
    as (_ & Hkept & _).
  etrans; [exact Hkept|]. reflexivity.
Defined.

(** X14. Unregistering removes at most one entry.  When some entry holds the
    chat's address, the key of the first such entry is gone afterwards,
    every other key keeps its address (so a chat registered under two keys
    is still registered under the other), and when the write succeeds the
    file holds the new registry; otherwise nothing changes. *)
Theorem unregister_removes_one_key (self : MyPlugin) (event : AstrMessageEvent) :
  NoDup (dict_keys (registered_groups self)) →
  let after := exec (mcbe_unregister event) self in
  NoDup (dict_keys (registered_groups after))
  ∧ match find_origin (registered_groups self) (unified_msg_origin event) with
    | Some removed =>
        dict_get removed (registered_groups after) = None
        ∧ (∀ other, other ≠ removed →
             dict_get other (registered_groups after)
             = dict_get other (registered_groups self))
        ∧ S (List.length (registered_groups after))
          = List.length (registered_groups self)
        ∧ (disk_writable self = true →
           registered_groups_file after = Stored (registered_groups after))
    | None =>
        registered_groups after = registered_groups self
        ∧ registered_groups_file after = registered_groups_file self
    end.
Proof.
  intros Hnd after. subst after. rewrite unregister_exec.
  destruct (find_origin _ _) as [removed|] eqn:Hfind.
  - cbn [after_unregister registered_groups registered_groups_file].
    split; [by apply dict_del_NoDup|]. split; [by apply dict_get_del_eq|].
    split; [intros other Hother; by apply dict_get_del_ne|]. split.
    + apply dict_del_length. by eapply find_origin_key.
    + intros Hdisk%disk_writable_ok. by rewrite Hdisk.
  - done.
Qed.

Lemma unregister_removes_one_key_example :
  let self :=
    __init__ default_config Missing
      (Stored [("333", "qq:group:333"); ("main", "qq:group:333")]) WriteOk in
  let event := {| unified_msg_origin := "qq:group:333"; group_id := None |} in
  registered_groups (exec (mcbe_unregister event) self) = [("main", "qq:group:333")]
  ∧ NoDup (dict_keys (registered_groups (exec (mcbe_unregister event) self))).
Proof.
  intros self event. split; [reflexivity|].
  assert (Hnd : NoDup (dict_keys (registered_groups self))).
  { simpl. apply NoDup_cons. split; [|apply NoDup_singleton].
    intros H%list_elem_of_singleton. discriminate H. }
  exact (proj1 (unregister_removes_one_key self event Hnd)).
Defined.

(** ** Splitting and stripping *)

Lemma split_nonempty (sep : ascii) (s : string) : split sep s ≠ [].
Proof.
  destruct s as [|c rest]; simpl; [done|].
  destruct (decide (c = sep)); [done|]. by destruct (split sep rest).
Qed.

Lemma split_free (sep : ascii) (s : string) : free_of sep s → split sep s = [s].
Proof.
  induction s as [|c rest IH]; simpl; [done|]. intros [Hne Hrest].
  rewrite decide_False by done. by rewrite IH.
Qed.

Lemma split_app (sep : ascii) (part s : string) :
  free_of sep part → split sep (part +:+ String sep s) = part :: split sep s.
Proof.
  induction part as [|c rest IH]; simpl.
  - intros _. by rewrite decide_True.
  - intros [Hne Hrest]. rewrite decide_False by done. by rewrite IH.
Qed.

(** Splitting undoes joining when no part holds the separator. *)
Lemma split_join (sep : ascii) (parts : list string) :
  parts ≠ [] → Forall (free_of sep) parts → split sep (join sep parts) = parts.
Proof.
  induction parts as [|part rest IH]; [done|]. intros _ Hfree.
  apply Forall_cons in Hfree as [Hpart Hrest].
  destruct rest as [|next rest]; [by apply split_free|].
  change (join sep (part :: next :: rest))
    with (part +:+ String sep (join sep (next :: rest))).
  rewrite split_app by done. f_equal. by apply IH.
Qed.

(** Every part a split gives is free of the separator, and joining the
    parts gives the string back. *)
Lemma split_parts_free (sep : ascii) (s : string) : Forall (free_of sep) (split sep s).
Proof.
  induction s as [|c rest IH]; simpl; [by repeat constructor|].
  destruct (decide (c = sep)); [by constructor|].
  destruct (split sep rest) as [|part parts]; [by repeat constructor|].
  apply Forall_cons in IH as [Hpart Hparts]. by constructor.
Qed.

Lemma join_split (sep : ascii) (s : string) : join sep (split sep s) = s.
Proof.
  induction s as [|c rest IH]; simpl; [done|].
  destruct (decide (c = sep)) as [->|Hne].
  - pose proof (split_nonempty sep rest).
    destruct (split sep rest) as [|part parts]; [done|].
    change (join sep (EmptyString :: part :: parts))
      with (String sep (join sep (part :: parts))). by rewrite IH.
  - pose proof (split_nonempty sep rest).
    destruct (split sep rest) as [|part parts]; [done|].
    destruct parts as [|next parts]; simpl in *; by rewrite <- IH.
Qed.

(** X15. The key under which a chat is registered.  An event with a [group_id]
    attribute is registered under it.  Otherwise the key is the address
    itself, unless the address contains the text [group] (in lower case)
    and has at least three fields separated by colons, in which case the
    key is the third field. *)
Theorem registration_key_is_third_field_of_group_address
    (event : AstrMessageEvent) (fields : list string) :
  unified_msg_origin event = join ":" fields →
  Forall (free_of ":") fields →
  registration_key event
  = match group_id event with
    | Some attribute => attribute
    | None =>
        if contains "group" (unified_msg_origin event)
        then match fields with
             | _ :: _ :: third :: _ => third
             | _ => unified_msg_origin event
             end
        else unified_msg_origin event
    end.
Proof.
  intros Horigin Hfree. unfold registration_key.
  destruct (group_id event); [done|].
  destruct (contains "group" (unified_msg_origin event)); [|done].
  destruct fields as [|first rest].
  - simpl in Horigin. rewrite Horigin. done.
  - assert (Hsplit : split ":" (unified_msg_origin event) = first :: rest).
    { rewrite Horigin. by apply split_join. }
    rewrite Hsplit. destruct rest as [|second [|third rest]]; done.
Qed.

Lemma registration_key_is_third_field_of_group_address_example :
  registration_key {| unified_msg_origin := "qq:group:333"; group_id := None |}
  = "333"
  ∧ registration_key
      {| unified_msg_origin := "aiocqhttp:GroupMessage:12345"; group_id := None |}
    = "aiocqhttp:GroupMessage:12345".
Proof.
  split.
  - etrans; [apply (registration_key_is_third_field_of_group_address
                      {| unified_msg_origin := "qq:group:333"; group_id := None |}
                      ["qq"; "group"; "333"]); [reflexivity|]|reflexivity].
    repeat constructor; discriminate.
  - etrans; [apply (registration_key_is_third_field_of_group_address
                      {| unified_msg_origin := "aiocqhttp:GroupMessage:12345";
                         group_id := None |}
                      ["aiocqhttp"; "GroupMessage"; "12345"]); [reflexivity|]
            |reflexivity].
    repeat constructor; discriminate.
Defined.

Lemma lstrip_free (isspace : ascii → bool) (c : ascii) (s : string) :
  free_of c s → free_of c (lstrip isspace s).
Proof.
  induction s as [|a rest IH]; simpl; [done|]. intros [Hne Hrest].
  destruct (isspace a); [by apply IH|done].
Qed.

Lemma rstrip_free (isspace : ascii → bool) (c : ascii) (s : string) :
  free_of c s → free_of c (rstrip isspace s).
Proof.
  induction s as [|a rest IH]; simpl; [done|]. intros [Hne Hrest].
  specialize (IH Hrest). destruct (rstrip isspace rest).
  - by destruct (isspace a).
  - done.
Qed.

Lemma lstrip_head (isspace : ascii → bool) (s : string) :
  match lstrip isspace s with
  | String c _ => isspace c = false
  | EmptyString => True
  end.
Proof.
  induction s as [|a rest IH]; simpl; [done|].
  destruct (isspace a) eqn:Ha; [exact IH|exact Ha].
Qed.

Lemma lstrip_id (isspace : ascii → bool) (s : string) :
  match s with String c _ => isspace c = false | EmptyString => True end →
  lstrip isspace s = s.
Proof. destruct s as [|c rest]; simpl; [done|]. by intros ->. Qed.

Lemma rstrip_head (isspace : ascii → bool) (s : string) :
  match s with String c _ => isspace c = false | EmptyString => True end →
  match rstrip isspace s with
  | String c _ => isspace c = false
  | EmptyString => True
  end.
Proof.
  destruct s as [|c rest]; simpl; [done|]. intros Hc.
  destruct (rstrip isspace rest); [by rewrite Hc|done].
Qed.

Lemma rstrip_idem (isspace : ascii → bool) (s : string) :
  rstrip isspace (rstrip isspace s) = rstrip isspace s.
Proof.
  induction s as [|a rest IH]; [done|]. cbn [rstrip].
  destruct (rstrip isspace rest) as [|c' rest'] eqn:Hrest.
  - destruct (isspace a) eqn:Ha; [done|]. simpl. by rewrite Ha.
  - cbn [rstrip]. cbn [rstrip] in IH. by rewrite IH.
Qed.

Lemma strip_idem (isspace : ascii → bool) (s : string) :
  strip isspace (strip isspace s) = strip isspace s.
Proof.
  unfold strip. rewrite (lstrip_id isspace (rstrip isspace (lstrip isspace s))).
  - apply rstrip_idem.
  - apply rstrip_head, lstrip_head.
Qed.

Lemma truthy_nonempty (s : string) : truthy s = true ↔ s ≠ EmptyString.
Proof. by destruct s. Qed.

Lemma configured_group_id_clean (isspace : ascii → bool) (group_ids_str gid : string) :
  gid ∈ configured_group_ids isspace group_ids_str →
  gid ≠ EmptyString ∧ strip isspace gid = gid ∧ free_of "," gid.
Proof.
  unfold configured_group_ids. destruct (_ || _); [by intros ?%elem_of_nil|].
  intros [Hin Htruthy]%list_elem_of_In%filter_In.
  apply list_elem_of_In, list_elem_of_fmap in Hin as (part & -> & Hpart).
  split; [by apply truthy_nonempty|]. split; [apply strip_idem|].
  apply rstrip_free, lstrip_free.
  pose proof (split_parts_free "," group_ids_str) as Hfree.
  rewrite Forall_forall in Hfree. by apply Hfree.
Qed.

Lemma configured_group_ids_blank (isspace : ascii → bool) (group_ids_str : string) :
  strip isspace group_ids_str = EmptyString →
  configured_group_ids isspace group_ids_str = [].
Proof. unfold configured_group_ids. intros ->. by rewrite orb_true_r. Qed.

(** X16. The group ids taken from the configured text are clean: none is empty,
    none has white space at either end, none holds a comma; there are no
    more of them than fields between commas, and a text of white space
    alone gives none. *)
Theorem configured_group_ids_are_clean (isspace : ascii → bool) (group_ids_str : string) :
  Forall (λ gid, gid ≠ EmptyString ∧ strip isspace gid = gid ∧ free_of "," gid)
    (configured_group_ids isspace group_ids_str)
  ∧ (List.length (configured_group_ids isspace group_ids_str)
     ≤ List.length (split "," group_ids_str))%nat
  ∧ (strip isspace group_ids_str = EmptyString →
     configured_group_ids isspace group_ids_str = []).
Proof.
  split; [|split].
  - apply Forall_forall. intros gid Hgid.
    by apply (configured_group_id_clean isspace group_ids_str).
  - unfold configured_group_ids. destruct (_ || _); [simpl; lia|].
    etrans; [apply filter_length_le|]. by rewrite length_fmap.
  - apply configured_group_ids_blank.
Qed.

Lemma configured_group_ids_are_clean_example :
  configured_group_ids (λ c, bool_decide (c = " "%char)) " 111, ,222 ,,"
  = ["111"; "222"]
  ∧ configured_group_ids (λ c, bool_decide (c = " "%char)) "   " = [].
Proof.
  split; [reflexivity|].
  apply (configured_group_ids_are_clean (λ c, bool_decide (c = " "%char)) "   ").
  reflexivity.
Defined.

(** X17. Where new articles go.  A registry that is not empty is the only
    source of addresses, in its own order, and the configured ids are not
    read.  With an empty registry every address is [group_] followed by a
    clean configured id, and there is none when the configured text is
    blank. *)
Theorem delivery_goes_to_registry_else_configured_ids
    (isspace : ascii → bool) (registered : dict) (group_ids_str : string) :
  let targets := delivery_targets isspace registered group_ids_str in
  (registered ≠ [] → targets = registered.*2)
  ∧ (registered = [] →
     Forall (λ target, ∃ gid,
               target = "group_" +:+ gid ∧ gid ≠ EmptyString
               ∧ strip isspace gid = gid ∧ free_of "," gid) targets
     ∧ (strip isspace group_ids_str = EmptyString → targets = []))
  ∧ (List.length targets
     ≤ max (List.length registered) (List.length (split "," group_ids_str)))%nat.
Proof.
  intros targets. subst targets. unfold delivery_targets.
  destruct registered as [|entry rest].
  - split; [done|]. split.
    + intros _. split.
      * apply Forall_fmap, Forall_forall. intros gid Hgid. exists gid.
        split; [done|]. by apply (configured_group_id_clean isspace group_ids_str).
      * intros Hs. by rewrite configured_group_ids_blank.
    + rewrite length_fmap. simpl. unfold configured_group_ids.
      destruct (_ || _); [simpl; lia|].
      etrans; [apply filter_length_le|]. by rewrite length_fmap.
  - split; [done|]. split; [done|]. rewrite length_fmap. lia.
Qed.

Lemma delivery_goes_to_registry_else_configured_ids_example :
  delivery_targets (λ c, bool_decide (c = " "%char))
    [("333", "qq:group:333")] "111,222"
  = ["qq:group:333"]
  ∧ delivery_targets (λ c, bool_decide (c = " "%char)) [] " 111, 222"
    = ["group_111"; "group_222"].
Proof.
  split; [|reflexivity].
  apply (delivery_goes_to_registry_else_configured_ids
           (λ c, bool_decide (c = " "%char)) [("333", "qq:group:333")] "111,222").
  discriminate.
Defined.

(** ** Registering and then unregistering *)

(** C8, as stated, fails: when another key already holds the chat's
    address, unregistering removes that earlier entry and the entry just
    registered stays. *)
Lemma unregister_can_remove_another_entry : ¬ unregister_removes_registered_entry.
Proof.
  intros Hclaim.
  destruct (Hclaim
              (__init__ default_config Missing
                 (Stored [("main", "qq:group:333")]) WriteOk)
              {| unified_msg_origin := "qq:group:333"; group_id := None |})
    as [Hgone _].
  - apply NoDup_singleton.
  - vm_compute in Hgone. discriminate Hgone.
Qed.

Lemma dict_set_new (k v : string) (d : dict) :
  k ∉ dict_keys d → dict_set k v d = d ++ [(k, v)].
Proof.
  unfold dict_keys. induction d as [|[k' v'] rest IH]; [done|].
  rewrite fmap_cons. intros [Hne Hrest]%not_elem_of_cons. simpl in *.
  rewrite decide_False by done. by rewrite IH.
Qed.

Lemma find_origin_app (d1 d2 : dict) (origin : string) :
  find_origin (d1 ++ d2) origin
  = match find_origin d1 origin with
    | Some k => Some k
    | None => find_origin d2 origin
    end.
Proof.
  induction d1 as [|[k v] rest IH]; [done|]. simpl.
  by destruct (decide (v = origin)).
Qed.

(** C8, amended. After a chat registers, unregistering from the same chat
    removes exactly one entry of the registry, the first whose address is
    the chat's, replies that the registration is cancelled and, when the
    write succeeds, leaves the registry file holding the new registry.
    When no entry under another key holds that address, the entry removed
    is the one the registration wrote; when the key is new and another
    key already holds the address, the entry the registration wrote
    stays.  Unregistering a chat whose address no entry holds replies
    "not registered" and leaves the registry and its file as they
    were. *)
Theorem register_then_unregister_removes_first_match
    (self : MyPlugin) (event : AstrMessageEvent) :
  NoDup (dict_keys (registered_groups self)) →
  let origin := unified_msg_origin event in
  let key := registration_key event in
  let registered := exec (mcbe_register event) self in
  let after := exec (mcbe_unregister event) registered in
  let stranger := exec (mcbe_unregister event) self in
  registered_groups registered = dict_set key origin (registered_groups self)
  ∧ (∃ group_id before rest,
       registered_groups registered = before ++ (group_id, origin) :: rest
       ∧ (∀ entry, entry ∈ before → entry.2 ≠ origin)
       ∧ registered_groups after = before ++ rest)
  ∧ last (trace after) = Some (Yield UnregisterOk)
  ∧ (disk_writable self = true →
     registered_groups_file after = Stored (registered_groups after))
  ∧ ((∀ entry, entry ∈ registered_groups self → entry.2 = origin → entry.1 = key) →
     registered_groups after = dict_del key (registered_groups self))
  ∧ (key ∉ dict_keys (registered_groups self) →
     (∃ entry, entry ∈ registered_groups self ∧ entry.2 = origin) →
     dict_get key (registered_groups after) = Some origin)
  ∧ ((∀ entry, entry ∈ registered_groups self → entry.2 ≠ origin) →
     registered_groups stranger = registered_groups self
     ∧ registered_groups_file stranger = registered_groups_file self
     ∧ effects_of (mcbe_unregister event) self = [Yield NotRegistered]).
Proof.
  intros Hnd origin key registered after stranger.
  assert (Hreg : registered_groups registered
                 = dict_set key origin (registered_groups self)).
  { subst registered. by rewrite register_exec. }
  assert (Hdisk : disk registered = disk self).
  { subst registered. by rewrite register_exec. }
  clearbody registered.
  destruct (find_origin (registered_groups registered) origin) as [group_id|] eqn:Hfind.
  2:{ apply find_origin_none with (entry := (key, origin)) in Hfind; [done|].
      rewrite Hreg. apply dict_set_elem. }
  assert (Hafter : after = after_unregister registered group_id).
  { subst after. rewrite unregister_exec. fold origin. by rewrite Hfind. }
  split; [done|]. split; [|split; [|split; [|split; [|split]]]].
  - destruct (find_origin_some _ _ _ Hfind) as (before & rest & Hsplit & Hbefore).
    exists group_id, before, rest. split; [done|]. split; [done|].
    rewrite Hafter. simpl. rewrite Hsplit. apply dict_del_middle.
    rewrite <- Hsplit, Hreg. by apply dict_set_NoDup.
  - rewrite Hafter. simpl. by rewrite last_app.
  - intros Hok%disk_writable_ok. rewrite Hafter. simpl. by rewrite Hdisk, Hok.
  - intros Honly. rewrite Hreg in Hfind.
    rewrite find_origin_dict_set in Hfind by done. injection Hfind as <-.
    rewrite Hafter. simpl. rewrite Hreg. apply dict_del_set.
  - intros Hnew (entry & Hentry & Horigin).
    assert (Hother : key ≠ group_id).
    { intros <-. rewrite Hreg, dict_set_new, find_origin_app in Hfind by done.
      destruct (find_origin (registered_groups self) origin) as [found|] eqn:Hself.
      - injection Hfind as <-. by apply find_origin_key in Hself.
      - apply find_origin_none with (entry := entry) in Hself; done. }
    rewrite Hafter. simpl. rewrite dict_get_del_ne by done.
    rewrite Hreg. apply dict_get_set_eq.
  - intros Hnone%find_origin_none. subst stranger.
    unfold effects_of. rewrite unregister_exec. fold origin. rewrite Hnone.
    run_monad. by rewrite drop_app_length.
Qed.

Lemma register_then_unregister_removes_first_match_example :
  let self :=
    __init__ default_config Missing
      (Stored [("111", "qq:GroupMessage:111"); ("222", "qq:GroupMessage:222")]) WriteOk in
  let event := {| unified_msg_origin := "qq:group:333"; group_id := None |} in
  registered_groups (exec (mcbe_register event) self)
  = [("111", "qq:GroupMessage:111"); ("222", "qq:GroupMessage:222");
     ("333", "qq:group:333")]
  ∧ registered_groups (exec (mcbe_unregister event) (exec (mcbe_register event) self))
    = registered_groups self
  ∧ registered_groups_file
      (exec (mcbe_unregister event) (exec (mcbe_register event) self))
    = Stored (registered_groups self)
  ∧ effects_of (mcbe_unregister event) self = [Yield NotRegistered].
Proof.
  intros self event.
  assert (Hnd : NoDup (dict_keys (registered_groups self))).
  { simpl. apply NoDup_cons. split; [|apply NoDup_singleton].
    intros H%list_elem_of_singleton. discriminate H. }
  destruct (register_then_unregister_removes_first_match self event Hnd)
    as (Hreg & _ & _ & Hfile & Hdel & _ & Hnone).
  assert (Hback : registered_groups
                    (exec (mcbe_unregister event) (exec (mcbe_register event) self))
                  = registered_groups self).
  { etrans; [apply Hdel|reflexivity].
    intros entry Hin Horigin. simpl in Hin.
    apply elem_of_cons in Hin as [->|Hin]; [discriminate Horigin|].
    apply list_elem_of_singleton in Hin as ->. discriminate Horigin. }
  split; [etrans; [exact Hreg|reflexivity]|]. split; [exact Hback|]. split.
  - etrans; [apply Hfile; reflexivity|]. by rewrite Hback.
  - apply Hnone. intros entry Hin. simpl in Hin.
    apply elem_of_cons in Hin as [->|Hin]; [discriminate|].
    apply list_elem_of_singleton in Hin as ->. discriminate.
Defined.

(** ** The ten images *)














